(** * mcp-worklog.js: the worklog generation pipeline

    A shallow embedding of [src/mcp-worklog.js].  Strings are byte strings
    (the UTF-8 encoding of the JavaScript text), time values are integers
    (milliseconds since the epoch, as in ECMAScript where every finite time
    value is an integer below 2^53), the file system is a finite map from
    paths to contents, and everything the script prints, spawns or writes is
    recorded in a trace of events. *)

From Stdlib Require Import ZArith List Ascii String DecimalString Lia Bool.
From stdpp Require Import base gmap strings list.

Local Open Scope string_scope.
Local Open Scope list_scope.
Local Open Scope Z_scope.

(** ** JavaScript strings *)

Module JSString.

(** [Array.prototype.join] on an array of strings, as the language
    specifies it: a result [R] that starts empty, and for each index [k]
    the separator is appended when [k > 0], then the element. *)
Fixpoint join_loop (sep : string) (k : nat) (R : string) (xs : list string)
  : string :=
  match xs with
  | [] => R
  | x :: rest =>
      let R1 := match k with O => R | S _ => R +:+ sep end in
      join_loop sep (S k) (R1 +:+ x) rest
  end.

Definition join (sep : string) (xs : list string) : string :=
  join_loop sep O "" xs.

(** [String.prototype.toLowerCase] restricted to the letters A-Z.  The
    script only compares the result with the ASCII keywords "today" and
    "yesterday", and no character outside A-Z lower-cases to one of their
    letters, so the comparisons agree with the full Unicode mapping. *)
Definition lower_ascii (c : ascii) : ascii :=
  let n := nat_of_ascii c in
  if ((65 <=? n) && (n <=? 90))%nat then ascii_of_nat (n + 32) else c.

Fixpoint toLowerCase (s : string) : string :=
  match s with
  | EmptyString => EmptyString
  | String c r => String (lower_ascii c) (toLowerCase r)
  end.

(** The white space and line terminators that [trim] removes, each as
    its UTF-8 byte sequence: TAB, LF, VT, FF, CR, SP, U+00A0, U+1680,
    U+2000 to U+200A, U+2028, U+2029, U+202F, U+205F, U+3000, U+FEFF. *)
Definition bytes (l : list nat) : string :=
  string_of_list_ascii (List.map ascii_of_nat l).

Definition white_space : list string :=
  List.map bytes
    [ [9]; [10]; [11]; [12]; [13]; [32]; [194; 160]; [225; 154; 128];
      [226; 128; 128]; [226; 128; 129]; [226; 128; 130]; [226; 128; 131];
      [226; 128; 132]; [226; 128; 133]; [226; 128; 134]; [226; 128; 135];
      [226; 128; 136]; [226; 128; 137]; [226; 128; 138]; [226; 128; 168];
      [226; 128; 169]; [226; 128; 175]; [226; 129; 159]; [227; 128; 128];
      [239; 187; 191] ]%nat.

Fixpoint strip_prefix (p s : string) : option string :=
  match p, s with
  | EmptyString, _ => Some s
  | String a p', String b s' =>
      if Ascii.eqb a b then strip_prefix p' s' else None
  | String _ _, EmptyString => None
  end.

(** Removes one leading white-space character, if there is one. *)
Fixpoint strip_one (ws : list string) (s : string) : option string :=
  match ws with
  | [] => None
  | w :: ws' =>
      match strip_prefix w s with
      | Some r => Some r
      | None => strip_one ws' s
      end
  end.

Fixpoint trimStart_fuel (fuel : nat) (s : string) : string :=
  match fuel with
  | O => s
  | S f =>
      match strip_one white_space s with
      | Some r => trimStart_fuel f r
      | None => s
      end
  end.

Definition trimStart (s : string) : string :=
  trimStart_fuel (String.length s) s.

Definition rev_ws : list string := List.map String.rev white_space.

Fixpoint trimEnd_fuel (fuel : nat) (r : string) : string :=
  match fuel with
  | O => r
  | S f =>
      match strip_one rev_ws r with
      | Some r' => trimEnd_fuel f r'
      | None => r
      end
  end.

Definition trimEnd (s : string) : string :=
  String.rev (trimEnd_fuel (String.length s) (String.rev s)).

Definition trim (s : string) : string := trimEnd (trimStart s).

(** [s.slice(0, n)] for [0 <= n]. *)
Definition slice0 (n : nat) (s : string) : string := substring 0 n s.

(** [String(n)] for an integer [n]. *)
Definition of_Z (n : Z) : string := NilZero.string_of_int (Z.to_int n).

End JSString.

(** ** Dates: the time arithmetic of ECMAScript *)

Module JSDate.

Definition msPerDay : Z := 86400000.
Definition msPerHour : Z := 3600000.
Definition msPerMinute : Z := 60000.
Definition msPerSecond : Z := 1000.

Definition Day (t : Z) : Z := t / msPerDay.
Definition TimeWithinDay (t : Z) : Z := t mod msPerDay.

Definition isLeap (y : Z) : bool :=
  ((y mod 4 =? 0) && negb (y mod 100 =? 0)) || (y mod 400 =? 0).

Definition DayFromYear (y : Z) : Z :=
  365 * (y - 1970) + (y - 1969) / 4 - (y - 1901) / 100 + (y - 1601) / 400.

Definition TimeFromYear (y : Z) : Z := msPerDay * DayFromYear y.

(** The largest year [y] with [TimeFromYear y <= t]: an estimate from the
    mean length of a year, corrected by at most one year either way
    ([YearFromTime_spec] below shows the correction is enough). *)
Definition YearFromTime (t : Z) : Z :=
  let d := Day t in
  let y0 := 1970 + (d * 400) / 146097 in
  if DayFromYear (y0 + 1) <=? d then y0 + 1
  else if DayFromYear y0 <=? d then y0
  else y0 - 1.

Definition InLeapYear (t : Z) : bool := isLeap (YearFromTime t).

Definition DayWithinYear (t : Z) : Z := Day t - DayFromYear (YearFromTime t).

(** Day number within the year of the first day of month [m] (0-based). *)
Definition monthStart (m : Z) (leap : bool) : Z :=
  let l := if leap then 1 else 0 in
  if m =? 0 then 0
  else if m =? 1 then 31
  else if m =? 2 then 59 + l
  else if m =? 3 then 90 + l
  else if m =? 4 then 120 + l
  else if m =? 5 then 151 + l
  else if m =? 6 then 181 + l
  else if m =? 7 then 212 + l
  else if m =? 8 then 243 + l
  else if m =? 9 then 273 + l
  else if m =? 10 then 304 + l
  else 334 + l.

Definition MonthFromTime (t : Z) : Z :=
  let d := DayWithinYear t in
  let l := if InLeapYear t then 1 else 0 in
  if d <? 31 then 0
  else if d <? 59 + l then 1
  else if d <? 90 + l then 2
  else if d <? 120 + l then 3
  else if d <? 151 + l then 4
  else if d <? 181 + l then 5
  else if d <? 212 + l then 6
  else if d <? 243 + l then 7
  else if d <? 273 + l then 8
  else if d <? 304 + l then 9
  else if d <? 334 + l then 10
  else 11.

Definition DateFromTime (t : Z) : Z :=
  DayWithinYear t - monthStart (MonthFromTime t) (InLeapYear t) + 1.

Definition HourFromTime (t : Z) : Z := (t / msPerHour) mod 24.
Definition MinFromTime (t : Z) : Z := (t / msPerMinute) mod 60.
Definition SecFromTime (t : Z) : Z := (t / msPerSecond) mod 60.
Definition msFromTime (t : Z) : Z := t mod msPerSecond.

Definition MakeTime (h m s ms : Z) : Z :=
  h * msPerHour + m * msPerMinute + s * msPerSecond + ms.

Definition MakeDay (year month date : Z) : Z :=
  let ym := year + month / 12 in
  let mn := month mod 12 in
  DayFromYear ym + monthStart mn (isLeap ym) + date - 1.

Definition MakeDate (day time : Z) : Z := day * msPerDay + time.

(** A Date object holds a time value or NaN ([None], an invalid date). *)
Definition date := option Z.

Definition maxTime : Z := 8640000000000000.

Definition TimeClip (t : Z) : date :=
  if Z.abs t <=? maxTime then Some t else None.

Section Zone.
(** The host's local time zone adjustment: [LocalTZA t true] is the
    offset of local time at the UTC instant [t], [LocalTZA t false] the
    offset at the local time [t]. *)
Variable LocalTZA : Z -> bool -> Z.

Definition LocalTime (t : Z) : Z := t + LocalTZA t true.
Definition UTC (t : Z) : Z := t - LocalTZA t false.

Definition getFullYear (t : Z) : Z := YearFromTime (LocalTime t).
Definition getMonth (t : Z) : Z := MonthFromTime (LocalTime t).
Definition getDate (t : Z) : Z := DateFromTime (LocalTime t).

(** [new Date(year, month, date)]: a year from 0 to 99 means 1900 + year;
    the fields are in local time. *)
Definition newDate3 (y m d : Z) : date :=
  let yr := if (0 <=? y) && (y <=? 99) then 1900 + y else y in
  TimeClip (UTC (MakeDate (MakeDay yr m d) (MakeTime 0 0 0 0))).
End Zone.

(** The instant at which the local clock shows midnight on the local date
    of [t] moved by [delta] days: what the specification calls local
    midnight of the current ([delta = 0]) or previous ([delta = -1]) date. *)
Definition local_midnight (tz : Z -> bool -> Z) (t delta : Z) : Z :=
  UTC tz ((Day (LocalTime tz t) + delta) * msPerDay).

(** A zone with a constant offset (no daylight-saving transitions). *)
Definition fixed_zone (offset : Z) : Z -> bool -> Z := fun _ _ => offset.

(** [n] written with exactly [w] decimal digits. *)
Fixpoint pad (w : nat) (n : Z) : string :=
  match w with
  | O => ""
  | S w' => pad w' (n / 10) +:+ String (ascii_of_nat (Z.to_nat (48 + n mod 10))) ""
  end.

Definition year_string (y : Z) : string :=
  if (0 <=? y) && (y <=? 9999) then pad 4 y
  else if y <? 0 then "-" +:+ pad 6 (- y)
  else "+" +:+ pad 6 y.

(** [Date.prototype.toISOString] of a valid time value: always UTC, with
    the suffix Z. *)
Definition iso_string (t : Z) : string :=
  year_string (YearFromTime t) +:+ "-" +:+ pad 2 (MonthFromTime t + 1)
    +:+ "-" +:+ pad 2 (DateFromTime t)
    +:+ "T" +:+ pad 2 (HourFromTime t) +:+ ":" +:+ pad 2 (MinFromTime t)
    +:+ ":" +:+ pad 2 (SecFromTime t) +:+ "." +:+ pad 3 (msFromTime t)
    +:+ "Z".

(** *** Parsing: the date-time string format of [Date.parse]

    [YYYY], [YYYY-MM] or [YYYY-MM-DD] (the year also as a sign and six
    digits), optionally followed by [THH:mm], [THH:mm:ss] or
    [THH:mm:ss.sss] and then by [Z] or an offset [+HH:mm] / [-HH:mm]. *)

Definition digit (c : ascii) : option Z :=
  let n := nat_of_ascii c in
  if ((48 <=? n) && (n <=? 57))%nat then Some (Z.of_nat n - 48) else None.

(** Reads exactly [k] digits. *)
Fixpoint digits (k : nat) (acc : Z) (s : string) : option (Z * string) :=
  match k with
  | O => Some (acc, s)
  | S k' =>
      match s with
      | String c r =>
          match digit c with
          | Some d => digits k' (10 * acc + d) r
          | None => None
          end
      | EmptyString => None
      end
  end.

Definition expect (c : ascii) (s : string) : option string :=
  match s with
  | String c' r => if Ascii.eqb c c' then Some r else None
  | EmptyString => None
  end.

Definition parse_year (s : string) : option (Z * string) :=
  match expect "+" s, expect "-" s with
  | Some r, _ => digits 6 0 r
  | None, Some r =>
      match digits 6 0 r with
      | Some (y, r') => if y =? 0 then None else Some (- y, r')
      | None => None
      end
  | None, None => digits 4 0 s
  end.

(** The optional [-MM] and [-DD]; an absent field is 1. *)
Definition parse_month_day (s : string) : option (Z * Z * string) :=
  match expect "-" s with
  | None => Some (1, 1, s)
  | Some r =>
      match digits 2 0 r with
      | None => None
      | Some (m, r1) =>
          match expect "-" r1 with
          | None => Some (m, 1, r1)
          | Some r2 =>
              match digits 2 0 r2 with
              | None => None
              | Some (d, r3) => Some (m, d, r3)
              end
          end
      end
  end.

(** The optional [:ss] and [.sss]. *)
Definition parse_seconds (s : string) : option (Z * Z * string) :=
  match expect ":" s with
  | None => Some (0, 0, s)
  | Some r =>
      match digits 2 0 r with
      | None => None
      | Some (sec, r1) =>
          match expect "." r1 with
          | None => Some (sec, 0, r1)
          | Some r2 =>
              match digits 3 0 r2 with
              | None => None
              | Some (ms, r3) => Some (sec, ms, r3)
              end
          end
      end
  end.

(** The UTC offset in minutes: absent ([None]), [Z], or signed [HH:mm];
    nothing may follow it. *)
Definition parse_offset (s : string) : option (option Z) :=
  match s with
  | EmptyString => Some None
  | String c r =>
      if Ascii.eqb c "Z" then
        match r with EmptyString => Some (Some 0) | _ => None end
      else if Ascii.eqb c "+" || Ascii.eqb c "-" then
        match digits 2 0 r with
        | None => None
        | Some (h, r1) =>
            match expect ":" r1 with
            | None => None
            | Some r2 =>
                match digits 2 0 r2 with
                | Some (m, EmptyString) =>
                    if (h <=? 23) && (m <=? 59) then
                      Some (Some ((if Ascii.eqb c "-" then -1 else 1)
                                  * (h * 60 + m)))
                    else None
                | _ => None
                end
            end
        end
      else None
  end.

(** The time of day in milliseconds and the offset, when there is a time
    part. *)
Definition parse_time (s : string) : option (option (Z * option Z)) :=
  match s with
  | EmptyString => Some None
  | String c r =>
      if Ascii.eqb c "T" then
        match digits 2 0 r with
        | None => None
        | Some (h, r1) =>
            match expect ":" r1 with
            | None => None
            | Some r2 =>
                match digits 2 0 r2 with
                | None => None
                | Some (mi, r3) =>
                    match parse_seconds r3 with
                    | None => None
                    | Some (sec, ms, r4) =>
                        match parse_offset r4 with
                        | None => None
                        | Some off =>
                            if ((h <=? 23) && (mi <=? 59) && (sec <=? 59))
                               || ((h =? 24) && (mi =? 0) && (sec =? 0)
                                   && (ms =? 0))
                            then Some (Some (MakeTime h mi sec ms, off))
                            else None
                        end
                    end
                end
            end
        end
      else None
  end.

Section Parse.
Variable LocalTZA : Z -> bool -> Z.
(** What the engine does with a string outside the format is left to
    the implementation. *)
Variable legacy_parse : string -> date.

(** [None] when the string is not in the format.  A date-only form is
    UTC; a date-time form without offset is local time. *)
Definition parse_iso (s : string) : option date :=
  match parse_year s with
  | None => None
  | Some (y, r) =>
      match parse_month_day r with
      | None => None
      | Some (m, d, r1) =>
          match parse_time r1 with
          | None => None
          | Some tm =>
              if (1 <=? m) && (m <=? 12) && (1 <=? d) && (d <=? 31) then
                let day := MakeDay y (m - 1) d in
                Some
                  match tm with
                  | None => TimeClip (MakeDate day 0)
                  | Some (t, None) =>
                      TimeClip (UTC LocalTZA (MakeDate day t))
                  | Some (t, Some off) =>
                      TimeClip (MakeDate day t - off * msPerMinute)
                  end
              else None
          end
      end
  end.

(** [new Date(s)] for a string [s]. *)
Definition newDateString (s : string) : date :=
  match parse_iso s with
  | Some d => d
  | None => legacy_parse s
  end.
End Parse.

End JSDate.


(** ** Errors *)

(** A thrown JavaScript error: its constructor's name and its message. *)
Record jserror := { err_name : string; message : string }.

Definition Error (msg : string) : jserror :=
  {| err_name := "Error"; message := msg |}.
Definition TypeError (msg : string) : jserror :=
  {| err_name := "TypeError"; message := msg |}.
Definition RangeError (msg : string) : jserror :=
  {| err_name := "RangeError"; message := msg |}.

Inductive result (A : Type) : Type :=
| Ok (a : A)
| Raise (e : jserror).
Arguments Ok {A} a.
Arguments Raise {A} e.

(** Characters the source writes as escapes. *)
Definition nl : string := String (ascii_of_nat 10) "".
Definition cr : string := String (ascii_of_nat 13) "".
Definition esc : string := String (ascii_of_nat 27) "".
Definition dquote : string := String (ascii_of_nat 34) "".

(** ** The Time Window Resolver: [parseSinceDate] *)

(** [d.toISOString()]: throws on an invalid date. *)
Definition toISOString (d : JSDate.date) : result string :=
  match d with
  | Some t => Ok (JSDate.iso_string t)
  | None => Raise (RangeError "Invalid time value")
  end.

(** [!input]: true for [undefined] ([None]) and for the empty string. *)
Definition is_falsy (input : option string) : bool :=
  match input with
  | None => true
  | Some s => String.eqb s ""
  end.

Definition lowered_is (input : option string) (kw : string) : bool :=
  match input with
  | None => false
  | Some s => String.eqb (JSString.toLowerCase s) kw
  end.

Section Resolver.
Variable LocalTZA : Z -> bool -> Z.
Variable legacy_parse : string -> JSDate.date.
(** The value of [new Date()] when the function runs. *)
Variable now : Z.

(** [new Date(d.getFullYear(), d.getMonth(), d.getDate() + delta)]. *)
Definition midnight_of (t : Z) (delta : Z) : JSDate.date :=
  JSDate.newDate3 LocalTZA
    (JSDate.getFullYear LocalTZA t)
    (JSDate.getMonth LocalTZA t)
    (JSDate.getDate LocalTZA t + delta).

(** [input] is [None] for [undefined].  An absent input is falsy, so the
    last branch is only reached with a string. *)
Definition parseSinceDate (input : option string) : result string :=
  if is_falsy input || lowered_is input "today" then
    toISOString (midnight_of now 0)
  else if lowered_is input "yesterday" then
    toISOString (midnight_of now (-1))
  else
    match input with
    | None => toISOString (midnight_of now 0)
    | Some s =>
        match JSDate.newDateString LocalTZA legacy_parse s with
        | Some parsed => toISOString (midnight_of parsed 0)
        | None => toISOString (midnight_of now 0)
        end
    end.
End Resolver.

(** ** Paths: [path.join] and [path.dirname] of the POSIX flavour *)

Module Path.

Fixpoint split_go (cur : string) (s : string) : list string :=
  match s with
  | EmptyString => [String.rev cur]
  | String c r =>
      if Ascii.eqb c "/" then String.rev cur :: split_go "" r
      else split_go (String c cur) r
  end.

(** The segments between the separators. *)
Definition split (s : string) : list string := split_go "" s.

(** One segment of [normalizeString]; the stack holds the segments kept so
    far, the last one first. *)
Definition step (allowAboveRoot : bool) (stack : list string) (seg : string)
  : list string :=
  if String.eqb seg "" || String.eqb seg "." then stack
  else if String.eqb seg ".." then
    match stack with
    | top :: rest =>
        if String.eqb top ".." then
          if allowAboveRoot then ".." :: stack else stack
        else rest
    | [] => if allowAboveRoot then [".."] else []
    end
  else seg :: stack.

Definition normalizeString (path : string) (allowAboveRoot : bool) : string :=
  JSString.join "/" (List.rev (fold_left (step allowAboveRoot) (split path) [])).

Definition starts_with_slash (s : string) : bool :=
  match s with
  | String c _ => Ascii.eqb c "/"
  | EmptyString => false
  end.

(** Whether the last character is a slash. *)
Fixpoint ends_with_slash (s : string) : bool :=
  match s with
  | EmptyString => false
  | String c EmptyString => Ascii.eqb c "/"
  | String _ r => ends_with_slash r
  end.

Definition normalize (path : string) : string :=
  if String.eqb path "" then "."
  else
    let isAbsolute := starts_with_slash path in
    let trailingSeparator := ends_with_slash path in
    let p := normalizeString path (negb isAbsolute) in
    if String.eqb p "" then
      if isAbsolute then "/" else if trailingSeparator then "./" else "."
    else
      let p1 := if trailingSeparator then p +:+ "/" else p in
      if isAbsolute then "/" +:+ p1 else p1.

(** [path.join(...args)]: the non-empty arguments joined by a slash, then
    normalized. *)
Definition join (args : list string) : string :=
  match List.filter (fun a => negb (String.eqb a "")) args with
  | [] => "."
  | parts => normalize (JSString.join "/" parts)
  end.

(** [path.dirname]: scans from the end for the last separator that is not
    trailing.  [r] is the reversed path without its first character,
    [seen] tells whether a character other than a slash has been met. *)
Fixpoint dirname_go (r : string) (seen : bool) : option string :=
  match r with
  | EmptyString => None
  | String c r' =>
      if Ascii.eqb c "/" then
        if seen then Some r' else dirname_go r' false
      else dirname_go r' true
  end.

Definition dirname (path : string) : string :=
  match path with
  | EmptyString => "."
  | String c0 rest =>
      let hasRoot := Ascii.eqb c0 "/" in
      match dirname_go (String.rev rest) false with
      | None => if hasRoot then "/" else "."
      | Some before =>
          let d := String c0 (String.rev before) in
          if hasRoot && String.eqb d "/" then "//" else d
      end
  end.

End Path.

(** ** The Prompt Assembler: [buildPromptFromDiffs] *)

Definition diff_separator : string := nl +:+ nl +:+ "---" +:+ nl +:+ nl.

Definition prompt_head : string :=
  "You are a 10x developer assistant." +:+ nl +:+
  "  " +:+ nl +:+
  "  Input: Recent git commit diffs below:" +:+ nl +:+
  "  " +:+ nl +:+
  "  ".

Definition prompt_tail : string :=
  nl +:+
  "  " +:+ nl +:+
  "  Task 1: Produce a " +:+ dquote +:+ "Developer Work Log" +:+ dquote +:+
  " in markdown format. For each commit write a bullet point summarizing the key code changes and files affected, using the commit hash short form." +:+ nl +:+
  "  Task 2: Produce a " +:+ dquote +:+ "Manager Summary" +:+ dquote +:+
  " with concise, non-technical bullet points describing overall progress." +:+ nl +:+
  "  " +:+ nl +:+
  "  Output both sections separated by a horizontal rule.".

Definition buildPromptFromDiffs (diffs : list string) : string :=
  let combinedDiffs := JSString.join diff_separator diffs in
  prompt_head +:+ combinedDiffs +:+ prompt_tail.

(** ** The registry *)

(** The object [loadConfig] returns, with the shape the script expects of
    the registry: the mapping from project name to repository path (a
    string), the active project and the output folder name (the last two
    may be absent). *)
Record config := {
  projects : gmap string string;
  activeProject : option string;
  worklogFolderName : option string
}.

(** The names every object inherits from [Object.prototype]; [o[k]] finds
    them when [o] has no property [k] of its own. *)
Definition Object_prototype_keys : list string :=
  [ "constructor"; "__defineGetter__"; "__defineSetter__"; "hasOwnProperty";
    "__lookupGetter__"; "__lookupSetter__"; "isPrototypeOf";
    "propertyIsEnumerable"; "toString"; "valueOf"; "__proto__";
    "toLocaleString" ].

(** The value of [cfg.projects[name]]. *)
Inductive jsprop : Type :=
| PString (s : string)
| PInherited (key : string)
| PUndefined.

Definition get_prop (o : gmap string string) (k : string) : jsprop :=
  match o !! k with
  | Some v => PString v
  | None =>
      if existsb (String.eqb k) Object_prototype_keys then PInherited k
      else PUndefined
  end.

Definition truthy (p : jsprop) : bool :=
  match p with
  | PString s => negb (String.eqb s "")
  | PInherited _ => true
  | PUndefined => false
  end.

(** [String(v)], as a template literal or [+] converts a value. *)
Definition prop_to_string (p : jsprop) : string :=
  match p with
  | PString s => s
  | PInherited k =>
      if String.eqb k "__proto__" then "[object Object]"
      else "function " +:+ k +:+ "() { [native code] }"
  | PUndefined => "undefined"
  end.

Definition opt_to_string (o : option string) : string :=
  match o with
  | Some s => s
  | None => "undefined"
  end.

(** ** The world the script runs in *)

(** An argument of [console.log] / [console.error]. *)
Inductive jsarg : Type :=
| AStr (s : string)
| AOpt (o : option string)
| AKeys (ks : gset string)
| AErr (e : jserror).

(** What the script does to the outside, in order.  The frames the spinner
    redraws every 80 ms while a call is awaited depend on real time and are
    left out; the text it writes when started and stopped is recorded. *)
Inductive event : Type :=
| StdoutWrite (s : string)
| ConsoleLog (args : list jsarg)
| ConsoleError (args : list jsarg)
| ExecCmd (cmd : string) (maxBuffer : Z)
| Spawn (prog : string) (args : list string) (stdin : string)
| Mkdir (path : string)
| WriteFile (path : string) (content : string).

Record world := {
  files : gmap string string;
  trace : list event
}.

(** A child process run to completion. *)
Record proc := { exit_code : Z; p_stdout : string; p_stderr : string }.

(** The host: what the script reads from its environment and the programs
    it calls. *)
Record host := {
  CONFIG : string;
  LocalTZA : Z -> bool -> Z;
  legacy_parse : string -> JSDate.date;
  (** [JSON.parse] on the text of the registry, typed as above: the
      object, or the error it throws *)
  JSON_parse : string -> result config;
  JSON_stringify : config -> string;
  (** what a shell command prints and how it exits *)
  shell : string -> proc;
  (** what [gemini] prints for a prompt, and its exit code ([None] when a
      signal ended it, which the close event reports as [null]) *)
  gemini : string -> option Z * string;
  (** [new Date()] in [parseSinceDate] and in [generate] *)
  now_resolve : Z;
  now_write : Z
}.

(** How a computation ends: with a value, with a thrown error, or with
    [process.exit]. *)
Inductive outcome (A : Type) : Type :=
| Ret (a : A)
| Throw (e : jserror)
| Exit (code : Z).
Arguments Ret {A} a.
Arguments Throw {A} e.
Arguments Exit {A} code.

Definition M (A : Type) : Type := world -> outcome A * world.

Definition throw {A} (e : jserror) : M A := fun w => (Throw e, w).
Definition process_exit {A} (code : Z) : M A := fun w => (Exit code, w).

#[global] Instance M_ret : MRet M := fun A (a : A) (w : world) => (Ret a, w).

#[global] Instance M_bind : MBind M := fun A B (k : A -> M B) (m : M A) (w : world) =>
  match m w with
  | (Ret a, w1) => k a w1
  | (Throw e, w1) => (Throw e, w1)
  | (Exit c, w1) => (Exit c, w1)
  end.

(** [try { body } catch (e) { handler }]. *)
Definition try_catch {A} (body : M A) (handler : jserror -> M A) : M A :=
  fun w =>
    match body w with
    | (Throw e, w1) => handler e w1
    | r => r
    end.

(** The world after some more events. *)
Definition add_events (w : world) (evs : list event) : world :=
  {| files := files w; trace := trace w ++ evs |}.

Definition emit (e : event) : M unit :=
  fun w => (Ret tt, add_events w [e]).

(** A promise settled by its callback: resolved with a value or rejected
    with an error, which [await] returns or throws. *)
Definition to_outcome {A} (r : result A) : outcome A :=
  match r with
  | Ok a => Ret a
  | Raise e => Throw e
  end.

Definition settle {A} (r : result A) : M A := fun w => (to_outcome r, w).

(** ** Child processes *)

(** The default of [maxBuffer] in [child_process.exec]. *)
Definition default_maxBuffer : Z := 1024 * 1024.

(** Whether a stream is longer than the buffer, in bytes. *)
Definition too_large (maxBuffer : Z) (s : string) : bool :=
  maxBuffer <? Z.of_nat (String.length s).

Definition maxBuffer_error (stream : string) : jserror :=
  RangeError (stream +:+ " maxBuffer length exceeded").

(** Splitting at the regular expression [\r?\n]. *)
Fixpoint split_lines_go (cur : string) (s : string) : list string :=
  match s with
  | EmptyString => [String.rev cur]
  | String c r =>
      if Ascii.eqb c (ascii_of_nat 10) then String.rev cur :: split_lines_go "" r
      else if Ascii.eqb c (ascii_of_nat 13) then
        match r with
        | String c1 r1 =>
            if Ascii.eqb c1 (ascii_of_nat 10)
            then String.rev cur :: split_lines_go "" r1
            else split_lines_go (String c cur) r
        | EmptyString => split_lines_go (String c cur) r
        end
      else split_lines_go (String c cur) r
  end.

Definition split_lines (s : string) : list string := split_lines_go "" s.

(** [.filter(Boolean)] on strings keeps the non-empty ones. *)
Definition filter_Boolean (l : list string) : list string :=
  List.filter (fun s => negb (String.eqb s "")) l.

(** [hashes.slice(0, 10)]. *)
Definition slice_0_10 {A} (l : list A) : list A := firstn 10 l.

Definition git_log_cmd (repoPath since : string) : string :=
  "git -C " +:+ dquote +:+ repoPath +:+ dquote +:+ " log --since=" +:+
  dquote +:+ since +:+ dquote +:+ " --pretty=format:" +:+ dquote +:+ "%H" +:+
  dquote.

Definition git_show_cmd (repoPath commitHash : string) : string :=
  "git -C " +:+ dquote +:+ repoPath +:+ dquote +:+ " show " +:+ commitHash +:+
  " --unified=3 --pretty=format:" +:+ dquote +:+
  "Commit: %H%nAuthor: %an%nDate: %ad%n" +:+ dquote.

Definition diff_maxBuffer : Z := 20 * 1024 * 1024.

Definition exit_code_string (code : option Z) : string :=
  match code with
  | Some n => JSString.of_Z n
  | None => "null"
  end.

(** [error.message || error]. *)
Definition message_or_error (e : jserror) : jsarg :=
  if String.eqb (message e) "" then AErr e else AStr (message e).

Definition spinner_clear : string := cr +:+ esc +:+ "[K".

Section Pipeline.
Variable H : host.

(** [exec(cmd, { maxBuffer }, callback)]: the arguments [err] and [stdout]
    the callback receives.  A stream longer than [maxBuffer] ends the child
    and gives an error, with the output cut at the limit. *)
Definition exec_callback_args (cmd : string) (maxBuffer : Z)
  : option jserror * string :=
  let p := shell H cmd in
  if too_large maxBuffer (p_stdout p) then
    (Some (maxBuffer_error "stdout"),
     substring 0 (Z.to_nat maxBuffer) (p_stdout p))
  else if too_large maxBuffer (p_stderr p) then
    (Some (maxBuffer_error "stderr"), p_stdout p)
  else if exit_code p =? 0 then (None, p_stdout p)
  else
    (Some (Error ("Command failed: " +:+ cmd +:+ nl +:+ p_stderr p)),
     p_stdout p).

Definition exec (cmd : string) (maxBuffer : Z) : M (option jserror * string) :=
  emit (ExecCmd cmd maxBuffer);;
  mret (exec_callback_args cmd maxBuffer).

(** The callback of [getCommitHashes]. *)
Definition hashes_callback (args : option jserror * string)
  : result (list string) :=
  match args with
  | (Some err, _) => Raise err
  | (None, stdout) =>
      Ok (filter_Boolean (split_lines (JSString.trim stdout)))
  end.

Definition getCommitHashes (repoPath since : string) : M (list string) :=
  args ← exec (git_log_cmd repoPath since) default_maxBuffer;
  settle (hashes_callback args).

(** The callback of [getCommitDiff]. *)
Definition diff_callback (args : option jserror * string) : result string :=
  match args with
  | (Some err, _) => Raise err
  | (None, stdout) => Ok (JSString.trim stdout)
  end.

Definition getCommitDiff (repoPath commitHash : string) : M string :=
  args ← exec (git_show_cmd repoPath commitHash) diff_maxBuffer;
  settle (diff_callback args).

(** The loop [for (const h of limitedHashes)]: one diff after the other,
    each pushed on [diffs]. *)
Fixpoint fetch_loop (repoPath : string) (hs : list string) (diffs : list string)
  : M (list string) :=
  match hs with
  | [] => mret diffs
  | h :: rest =>
      diff ← getCommitDiff repoPath h;
      fetch_loop repoPath rest (diffs ++ [diff])
  end.

Definition getCommitDiffs (repoPath since : string) : M (list string) :=
  hashes ← getCommitHashes repoPath since;
  let limitedHashes := slice_0_10 hashes in
  fetch_loop repoPath limitedHashes [].

Definition loadConfig : M config :=
  fun w =>
    match files w !! CONFIG H with
    | None =>
        (Throw (Error ("ENOENT: no such file or directory, open '" +:+
                       CONFIG H +:+ "'")), w)
    | Some text => (to_outcome (JSON_parse H text), w)
    end.

(** The two writes are modelled as succeeding: a directory that cannot be
    made or a file that cannot be written is outside the model. *)
Definition mkdirSync (path : string) : M unit := emit (Mkdir path).

Definition writeFileSync (path content : string) : M unit :=
  fun w =>
    (Ret tt, {| files := <[path := content]> (files w);
                trace := trace w ++ [WriteFile path content] |}).

Definition saveConfig (cfg : config) : M unit :=
  mkdirSync (Path.dirname (CONFIG H));;
  writeFileSync (CONFIG H) (JSON_stringify H cfg).

(** [name] is [argv[1]], [None] when the argument is absent. *)
Definition setActiveProject (name : option string) : M unit :=
  cfg ← loadConfig;
  if negb (truthy (get_prop (projects cfg) (opt_to_string name))) then
    throw (Error ("Unknown project: " +:+ opt_to_string name))
  else
    let cfg' := {| projects := projects cfg;
                   activeProject := name;
                   worklogFolderName := worklogFolderName cfg |} in
    saveConfig cfg';;
    emit (ConsoleLog [AStr "activeProject set to"; AOpt name]).

Record active := {
  a_name : string;
  a_repo : jsprop;
  a_worklogFolderName : string
}.

Definition getActiveRepoPath : M active :=
  cfg ← loadConfig;
  match activeProject cfg with
  | None => throw (Error "No activeProject in config")
  | Some name =>
      if String.eqb name "" then throw (Error "No activeProject in config")
      else
        let repo := get_prop (projects cfg) name in
        if negb (truthy repo) then
          throw (Error ("Project path missing for " +:+ name))
        else
          mret {| a_name := name;
                  a_repo := repo;
                  a_worklogFolderName :=
                    match worklogFolderName cfg with
                    | Some f => if String.eqb f "" then "worklogs" else f
                    | None => "worklogs"
                    end |}
  end.

(** [spawn("gemini", ...)], the prompt written to its input, its output
    collected until it closes.  A back end that cannot be started at all is
    outside the model. *)
Definition callGemini (promptText : string) : M string :=
  emit (Spawn "gemini" ["--model=gemini-2.5-pro"] promptText);;
  let '(code, out) := gemini H promptText in
  match code with
  | Some 0 => mret out
  | _ => throw (Error ("gemini exited code " +:+ exit_code_string code))
  end.

Definition startSpinner (text : string) : M unit := emit (StdoutWrite text).
Definition stopSpinner : M unit := emit (StdoutWrite spinner_clear).

(** [path.join(repo, worklogFolderName)]: [path.join] throws on an
    argument that is not a string. *)
Definition join_repo (repo : jsprop) (folder : string) : M string :=
  match repo with
  | PString r => mret (Path.join [r; folder])
  | _ =>
      throw (TypeError ("The " +:+ dquote +:+ "path" +:+ dquote +:+
                        " argument must be of type string."))
  end.

Definition report_file (date result : string) : string :=
  "# Work Log — " +:+ date +:+ nl +:+ nl +:+ JSString.trim result +:+ nl.

Definition generate (since : string) : M unit :=
  a ← getActiveRepoPath;
  startSpinner ("Generating worklog for " +:+ a_name a +:+ "...");;
  try_catch
    (diffs ← getCommitDiffs (prop_to_string (a_repo a)) since;
     match diffs with
     | [] =>
         stopSpinner;;
         emit (ConsoleLog [AStr "No commits found since"; AStr since])
     | _ =>
         let prompt := buildPromptFromDiffs diffs in
         result ← callGemini prompt;
         stopSpinner;;
         let date := JSString.slice0 10 (JSDate.iso_string (now_write H)) in
         outDir ← join_repo (a_repo a) (a_worklogFolderName a);
         mkdirSync outDir;;
         let outPath := Path.join [outDir; date +:+ ".md"] in
         writeFileSync outPath (report_file date result);;
         emit (ConsoleLog [AStr "Saved"; AStr outPath])
     end)
    (fun error =>
       stopSpinner;;
       emit (ConsoleError [message_or_error error]);;
       process_exit 1).

(** [argv[1] || "today"]. *)
Definition raw_since (argv : list string) : string :=
  match argv !! 1%nat with
  | Some s => if String.eqb s "" then "today" else s
  | None => "today"
  end.

(** The command line after [process.argv.slice(2)]. *)
Definition main (argv : list string) : M unit :=
  let cmd := argv !! 0%nat in
  try_catch
    (if decide (cmd = Some "set-active") then setActiveProject (argv !! 1%nat)
     else if decide (cmd = Some "generate") then
       let rawSince := raw_since argv in
       since ← settle
                 (parseSinceDate (LocalTZA H) (legacy_parse H) (now_resolve H)
                    (Some rawSince));
       generate since
     else if decide (cmd = Some "list-projects") then
       cfg ← loadConfig;
       emit (ConsoleLog [AStr "Projects:"; AKeys (dom (projects cfg))]);;
       emit (ConsoleLog [AStr "activeProject:"; AOpt (activeProject cfg)])
     else
       emit (ConsoleLog
               [AStr "usage: set-active <name> | list-projects | generate [since]"]))
    (fun e => emit (ConsoleError [message_or_error e])).

(** The exit status of the process: the argument of [process.exit], 0 when
    the script runs to its end, 1 when an error is not caught. *)
Definition exit_status {A} (r : outcome A * world) : Z :=
  match fst r with
  | Ret _ => 0
  | Throw _ => 1
  | Exit c => c
  end.

End Pipeline.

(** ** Notions used to state the properties *)

(** The events of the two repository queries. *)
Definition log_event (repoPath since : string) : event :=
  ExecCmd (git_log_cmd repoPath since) default_maxBuffer.

Definition show_event (repoPath commitHash : string) : event :=
  ExecCmd (git_show_cmd repoPath commitHash) diff_maxBuffer.

Definition is_ExecCmd (e : event) : bool :=
  match e with ExecCmd _ _ => true | _ => false end.

Definition is_WriteFile (e : event) : bool :=
  match e with WriteFile _ _ => true | _ => false end.

(** A computation that does not read or change the files: its outcome and
    the events it adds are the same in every world. *)
Definition uniform {A} (m : M A) (o : outcome A) (evs : list event) : Prop :=
  forall w, m w = (o, add_events w evs).

Definition banner (a : active) : event :=
  StdoutWrite ("Generating worklog for " +:+ a_name a +:+ "...").

Definition spawn_event (prompt : string) : event :=
  Spawn "gemini" ["--model=gemini-2.5-pro"] prompt.

(** The date in the name and heading of the report: the first ten
    characters of the ISO form of the instant of writing. *)
Definition out_date (H : host) : string :=
  JSString.slice0 10 (JSDate.iso_string (now_write H)).

(** A path segment that normalization leaves alone. *)
Fixpoint no_slash (s : string) : bool :=
  match s with
  | EmptyString => true
  | String c r => negb (Ascii.eqb c "/") && no_slash r
  end.

Definition plain_segment (s : string) : bool :=
  no_slash s && negb (String.eqb s "") && negb (String.eqb s ".")
  && negb (String.eqb s "..").

(** An absolute path in normal form, other than the root: a slash, then
    plain segments separated by single slashes. *)
Definition plain_absolute (p : string) : bool :=
  match p with
  | String c r => Ascii.eqb c "/" && forallb plain_segment (Path.split r)
  | EmptyString => false
  end.

(** The stacks [normalizeString] builds: plain segments on top of the
    parent references it could not resolve (none for an absolute path). *)
Definition normal_stack (allowAboveRoot : bool) (K : list string) : Prop :=
  exists plains n,
    K = plains ++ repeat ".." n
    /\ forallb plain_segment plains = true
    /\ (allowAboveRoot = false -> n = 0%nat).

(** The events that start a child process. *)
Definition is_process (e : event) : bool :=
  match e with
  | ExecCmd _ _ | Spawn _ _ _ => true
  | _ => false
  end.

(** The folder name [getActiveRepoPath] gives for a registry:
    [cfg.worklogFolderName || "worklogs"]. *)
Definition folder_of (cfg : config) : string :=
  match worklogFolderName cfg with
  | Some f => if String.eqb f "" then "worklogs" else f
  | None => "worklogs"
  end.

(** A string without line feed. *)
Fixpoint no_lf (s : string) : bool :=
  match s with
  | EmptyString => true
  | String c r => negb (Ascii.eqb c (ascii_of_nat 10)) && no_lf r
  end.

(** The visible ASCII characters, from the exclamation mark to the tilde. *)
Definition printable_char (c : ascii) : bool :=
  let n := nat_of_ascii c in ((33 <=? n) && (n <=? 126))%nat.

Fixpoint printable (s : string) : bool :=
  match s with
  | EmptyString => true
  | String c r => printable_char c && printable r
  end.

(** What a commit hash looks like: a non-empty run of visible characters. *)
Definition hash_like (s : string) : bool :=
  negb (String.eqb s "") && printable s.

(** ** A sample host, for the examples *)

Module Sample.

Definition config_path : string := "/home/dev/.worklogs/projects.json".

Definition registry : config :=
  {| projects := {[ "p" := "/repo" ]};
     activeProject := Some "p";
     worklogFolderName := None |}.

Definition registry_unset : config :=
  {| projects := {[ "p" := "/repo" ]};
     activeProject := None;
     worklogFolderName := None |}.

Definition registry_dangling : config :=
  {| projects := {[ "p" := "/repo" ]};
     activeProject := Some "q";
     worklogFolderName := None |}.

(** Stand-ins for [JSON.parse] and [JSON.stringify] on the registry texts
    of the examples. *)
Definition parse (text : string) : result config :=
  if String.eqb text "registry" then Ok registry
  else if String.eqb text "registry without activeProject"
       then Ok registry_unset
  else if String.eqb text "registry with activeProject q"
       then Ok registry_dangling
  else Raise {| err_name := "SyntaxError";
                message := "Unexpected token in JSON" |}.

Definition stringify (cfg : config) : string :=
  "registry with activeProject " +:+ opt_to_string (activeProject cfg).

(** Forty digits standing for the hash of the [n]-th commit. *)
Definition hash (n : nat) : string := JSDate.pad 40 (Z.of_nat n).

Definition hashes (n : nat) : list string := List.map hash (seq 1 n).

Definition is_log (cmd : string) : bool :=
  String.prefix ("git -C " +:+ dquote +:+ "/repo" +:+ dquote +:+ " log") cmd.

(** A repository with [commits] commits in the window; [show] gives the
    output of a [git show] command. *)
Definition run (commits : nat) (show : string -> string) (cmd : string)
  : proc :=
  if is_log cmd then
    {| exit_code := 0;
       p_stdout := JSString.join nl (hashes commits) +:+ nl;
       p_stderr := "" |}
  else {| exit_code := 0; p_stdout := show cmd; p_stderr := "" |}.

Definition small_diff (cmd : string) : string :=
  "Commit: " +:+ cmd +:+ nl +:+ "+ a line" +:+ nl +:+ nl.

Definition host_with (commits : nat) (show : string -> string)
    (backend : option Z * string) : host :=
  {| CONFIG := config_path;
     LocalTZA := JSDate.fixed_zone (5 * 3600000);
     legacy_parse := fun _ => None;
     JSON_parse := parse;
     JSON_stringify := stringify;
     shell := run commits show;
     gemini := fun _ => backend;
     now_resolve := 1755259200000;
     now_write := 1755259260000 |}.

Definition world_with (text : string) : world :=
  {| files := {[ config_path := text ]}; trace := [] |}.

(** The window "today" resolves to in the sample host, the active project
    as [getActiveRepoPath] returns it, and the diffs of the first [n]
    commits. *)
Definition since : string := "2025-08-14T19:00:00.000Z".

Definition active_p : active :=
  {| a_name := "p"; a_repo := PString "/repo";
     a_worklogFolderName := "worklogs" |}.

Definition diffs (n : nat) : list string :=
  List.map (fun h => JSString.trim (small_diff (git_show_cmd "/repo" h)))
    (hashes n).

(** The hosts and the world of the scenarios: three commits and a back
    end that answers, a back end that exits with code 1, no commit, twelve
    commits. *)
Definition host3 : host := host_with 3 small_diff (Some 0, "  the report " +:+ nl).
Definition host_failing : host := host_with 3 small_diff (Some 1, "").
Definition host_empty : host := host_with 0 small_diff (Some 0, "report").
Definition host12 : host := host_with 12 small_diff (Some 0, "report").
Definition world0 : world := world_with "registry".

Fixpoint repeat_char (n : nat) (c : ascii) : string :=
  match n with
  | O => ""
  | S n' => String c (repeat_char n' c)
  end.

(** A diff one character longer than the capture buffer. *)
Definition huge_diff (cmd : string) : string :=
  repeat_char (Z.to_nat (diff_maxBuffer + 1)) "x".

Definition host_huge : host := host_with 1 huge_diff (Some 0, "report").

(** A path that is not a repository: every [git] command fails. *)
Definition run_failing (cmd : string) : proc :=
  {| exit_code := 128;
     p_stdout := "";
     p_stderr := "fatal: not a git repository" +:+ nl |}.

(** A repository whose history query prints the hashes as [git log] does
    with a [format:] pretty option, without a line feed at the end. *)
Definition run_exact (commits : nat) (cmd : string) : proc :=
  if is_log cmd then
    {| exit_code := 0;
       p_stdout := String.concat nl (hashes commits);
       p_stderr := "" |}
  else {| exit_code := 0; p_stdout := small_diff cmd; p_stderr := "" |}.

Definition host_shell (sh : string -> proc) (backend : option Z * string)
  : host :=
  {| CONFIG := config_path;
     LocalTZA := JSDate.fixed_zone (5 * 3600000);
     legacy_parse := fun _ => None;
     JSON_parse := parse;
     JSON_stringify := stringify;
     shell := sh;
     gemini := fun _ => backend;
     now_resolve := 1755259200000;
     now_write := 1755259260000 |}.

Definition host_nogit : host := host_shell run_failing (Some 0, "report").
Definition host_exact : host := host_shell (run_exact 3) (Some 0, "report").
Definition host_killed : host := host_with 3 small_diff (None, "partial").

(** A registry of two projects with an output folder name, and stand-ins
    for [JSON.parse] and [JSON.stringify] that read back what was
    written. *)
Definition registry_two (active : string) : config :=
  {| projects := {[ "p" := "/repo"; "q" := "/other"; "r" := "" ]};
     activeProject := Some active;
     worklogFolderName := Some "logs" |}.

Definition stringify_two (cfg : config) : string :=
  "two projects, active " +:+ opt_to_string (activeProject cfg).

Definition parse_two (text : string) : result config :=
  if String.eqb text "two projects, active p" then Ok (registry_two "p")
  else if String.eqb text "two projects, active q" then Ok (registry_two "q")
  else Raise {| err_name := "SyntaxError";
                message := "Unexpected token in JSON" |}.

Definition host_two : host :=
  {| CONFIG := config_path;
     LocalTZA := JSDate.fixed_zone (5 * 3600000);
     legacy_parse := fun _ => None;
     JSON_parse := parse_two;
     JSON_stringify := stringify_two;
     shell := run 3 small_diff;
     gemini := fun _ => (Some 0, "report");
     now_resolve := 1755259200000;
     now_write := 1755259260000 |}.

Definition world_two : world :=
  {| files := {[ config_path := "two projects, active p" ]}; trace := [] |}.

End Sample.

(** * Properties *)

(** ** The primitives on small inputs *)

Module Checks.

Example iso_string_2025 :
  JSDate.iso_string 1754006400000 = "2025-08-01T00:00:00.000Z".
Proof. vm_compute. reflexivity. Qed.

Example iso_string_before_epoch :
  JSDate.iso_string (-1) = "1969-12-31T23:59:59.999Z".
Proof. vm_compute. reflexivity. Qed.

Example iso_string_leap_day :
  JSDate.iso_string 951782400000 = "2000-02-29T00:00:00.000Z".
Proof. vm_compute. reflexivity. Qed.

Example iso_string_expanded_year :
  JSDate.iso_string (-62198755200000) = "-000001-01-01T00:00:00.000Z".
Proof. vm_compute. reflexivity. Qed.

Example trim_both_ends :
  JSString.trim (" " +:+ nl +:+ "a b" +:+ cr +:+ nl +:+ " ") = "a b".
Proof. vm_compute. reflexivity. Qed.

Example trim_no_break_space :
  JSString.trim (JSString.bytes [194; 160]%nat +:+ "x") = "x".
Proof. vm_compute. reflexivity. Qed.

Example join_three : JSString.join ", " ["a"; "b"; "c"] = "a, b, c".
Proof. vm_compute. reflexivity. Qed.

Example split_lines_mixed :
  split_lines ("abc" +:+ nl +:+ "def" +:+ cr +:+ nl +:+ cr +:+ "x" +:+ nl)
  = ["abc"; "def"; cr +:+ "x"; ""].
Proof. vm_compute. reflexivity. Qed.

Example of_Z_small : JSString.of_Z 17 = "17" /\ JSString.of_Z 0 = "0".
Proof. split; vm_compute; reflexivity. Qed.

Example path_join_plain : Path.join ["/repo"; "worklogs"] = "/repo/worklogs".
Proof. vm_compute. reflexivity. Qed.

Example path_join_dots :
  Path.join ["/repo/"; "../x/./worklogs/"] = "/x/worklogs/"
  /\ Path.join ["a"; ".."; ".."; "b"] = "../b"
  /\ Path.join [""; ""] = ".".
Proof. repeat split; vm_compute; reflexivity. Qed.

Example path_dirname :
  Path.dirname "/home/dev/.worklogs/projects.json" = "/home/dev/.worklogs"
  /\ Path.dirname "/a" = "/" /\ Path.dirname "a" = "."
  /\ Path.dirname "/a/b/" = "/a".
Proof. repeat split; vm_compute; reflexivity. Qed.

(** The window tokens, five hours east of Greenwich, at noon UTC on
    15 August 2025. *)
Example resolve_tokens :
  let resolve :=
    parseSinceDate (JSDate.fixed_zone 18000000) (fun _ => None) 1755259200000 in
  resolve None = Ok "2025-08-14T19:00:00.000Z"
  /\ resolve (Some "") = Ok "2025-08-14T19:00:00.000Z"
  /\ resolve (Some "Today") = Ok "2025-08-14T19:00:00.000Z"
  /\ resolve (Some "YESTERDAY") = Ok "2025-08-13T19:00:00.000Z"
  /\ resolve (Some "2025-08-01") = Ok "2025-07-31T19:00:00.000Z"
  /\ resolve (Some "2025-08-01T10:30:00Z") = Ok "2025-07-31T19:00:00.000Z"
  /\ resolve (Some "not-a-date") = Ok "2025-08-14T19:00:00.000Z".
Proof. cbv zeta. repeat split; vm_compute; reflexivity. Qed.

End Checks.

(** ** Facts about the time arithmetic *)

Module DateFacts.
Import JSDate.

(** [YearFromTime] is the year the day falls in. *)
Lemma YearFromTime_spec (t : Z) :
  DayFromYear (YearFromTime t) <= Day t < DayFromYear (YearFromTime t + 1).
Proof.
  unfold YearFromTime, DayFromYear.
  generalize (Day t); intros d.
  repeat match goal with
         | |- context [Z.leb ?a ?b] => destruct (Z.leb_spec a b)
         end;
    Z.div_mod_to_equations; lia.
Qed.

Lemma YearFromTime_lower (t : Z) :
  - msPerDay <= t -> 1969 <= YearFromTime t.
Proof.
  intros Ht.
  pose proof (YearFromTime_spec t) as [_ Hup].
  assert (Hd : -1 <= Day t).
  { unfold Day, msPerDay in *. Z.div_mod_to_equations. lia. }
  destruct (Z_lt_le_dec (YearFromTime t) 1969) as [Hlt|]; [|assumption].
  exfalso. revert Hup. unfold DayFromYear.
  generalize dependent (YearFromTime t). intros y Hy.
  Z.div_mod_to_equations. lia.
Qed.

Lemma MonthFromTime_range (t : Z) : 0 <= MonthFromTime t <= 11.
Proof.
  unfold MonthFromTime.
  repeat match goal with
         | |- context [Z.ltb ?a ?b] => destruct (Z.ltb a b)
         end; lia.
Qed.

(** The month table read forwards and backwards. *)
Lemma monthStart_MonthFromTime (t : Z) :
  monthStart (MonthFromTime t) (InLeapYear t) + DateFromTime t - 1
  = DayWithinYear t.
Proof. unfold DateFromTime. lia. Qed.

(** Putting the fields of a time value together again gives its day, and
    a shifted date gives the shifted day. *)
Lemma MakeDay_fields (t delta : Z) :
  MakeDay (YearFromTime t) (MonthFromTime t) (DateFromTime t + delta)
  = Day t + delta.
Proof.
  pose proof (MonthFromTime_range t) as Hm.
  unfold MakeDay.
  replace (MonthFromTime t / 12) with 0 by (Z.div_mod_to_equations; lia).
  replace (MonthFromTime t mod 12) with (MonthFromTime t)
    by (Z.div_mod_to_equations; lia).
  rewrite Z.add_0_r.
  pose proof (monthStart_MonthFromTime t) as Hs.
  unfold InLeapYear, DayWithinYear in Hs. lia.
Qed.

Section Midnight.
Variable tz : Z -> bool -> Z.
Hypothesis tz_bounded : forall t b, - msPerDay <= tz t b <= msPerDay.

Lemma midnight_of_valid (t delta : Z) :
  0 <= t <= maxTime - 2 * msPerDay ->
  -1 <= delta <= 0 ->
  midnight_of tz t delta = Some (local_midnight tz t delta).
Proof.
  intros Ht Hd.
  unfold midnight_of, newDate3, getFullYear, getMonth, getDate, local_midnight.
  pose proof (tz_bounded t true) as Hz.
  assert (Hy : 1969 <= YearFromTime (LocalTime tz t)).
  { apply YearFromTime_lower. unfold LocalTime. lia. }
  replace ((0 <=? YearFromTime (LocalTime tz t))
           && (YearFromTime (LocalTime tz t) <=? 99)) with false
    by (symmetry; apply andb_false_iff; right; apply Z.leb_gt; lia).
  rewrite MakeDay_fields.
  unfold MakeDate, MakeTime. rewrite !Z.mul_0_l, !Z.add_0_r.
  unfold TimeClip.
  set (m := (Day (LocalTime tz t) + delta) * msPerDay).
  pose proof (tz_bounded m false) as Hz'.
  assert (Hm : t - 3 * msPerDay <= m <= t + msPerDay).
  { subst m. unfold Day, LocalTime, msPerDay in *.
    Z.div_mod_to_equations. lia. }
  destruct (Z.leb_spec (Z.abs (UTC tz m)) maxTime) as [|Hbad]; [reflexivity|].
  exfalso. unfold UTC, maxTime, msPerDay in *. lia.
Qed.

End Midnight.

End DateFacts.

(** ** The Time Window Resolver *)

Module ResolverFacts.
Import JSDate DateFacts.

Lemma lowered_today : lowered_is (Some "today") "today" = true.
Proof. reflexivity. Qed.

(** The empty or absent token and "today" in any case give local midnight
    of the current date. *)
Lemma resolve_today (tz : Z -> bool -> Z) (legacy : string -> date)
    (now : Z) (input : option string) :
  (forall t b, - msPerDay <= tz t b <= msPerDay) ->
  0 <= now <= maxTime - 2 * msPerDay ->
  is_falsy input || lowered_is input "today" = true ->
  parseSinceDate tz legacy now input = Ok (iso_string (local_midnight tz now 0)).
Proof.
  intros Hz Hn Hk. unfold parseSinceDate. rewrite Hk.
  rewrite (midnight_of_valid tz Hz) by lia. reflexivity.
Qed.

(** "yesterday" in any case gives local midnight of the previous date. *)
Lemma resolve_yesterday (tz : Z -> bool -> Z) (legacy : string -> date)
    (now : Z) (s : string) :
  (forall t b, - msPerDay <= tz t b <= msPerDay) ->
  0 <= now <= maxTime - 2 * msPerDay ->
  JSString.toLowerCase s = "yesterday" ->
  parseSinceDate tz legacy now (Some s)
  = Ok (iso_string (local_midnight tz now (-1))).
Proof.
  intros Hz Hn Hk. unfold parseSinceDate, is_falsy, lowered_is.
  rewrite Hk.
  assert (Hs : String.eqb s "" = false).
  { destruct s; [discriminate Hk | reflexivity]. }
  rewrite Hs.
  replace (String.eqb "yesterday" "today") with false by reflexivity.
  replace (String.eqb "yesterday" "yesterday") with true by reflexivity.
  cbn [orb].
  rewrite (midnight_of_valid tz Hz) by lia. reflexivity.
Qed.

(** In a zone with a constant offset the instant [local_midnight] is
    midnight on the local clock, on the expected local day. *)
Lemma local_midnight_fixed (off t delta : Z) :
  let m := local_midnight (fixed_zone off) t delta in
  TimeWithinDay (LocalTime (fixed_zone off) m) = 0
  /\ Day (LocalTime (fixed_zone off) m) = Day (t + off) + delta.
Proof.
  unfold local_midnight, LocalTime, UTC, fixed_zone, TimeWithinDay, Day.
  cbv zeta.
  replace ((((t + off) / msPerDay + delta) * msPerDay - off) + off)
    with (((t + off) / msPerDay + delta) * msPerDay) by lia.
  split.
  - apply Z.mod_mul. discriminate.
  - apply Z.div_mul. discriminate.
Qed.

(** C7. A token that reaches the parsing step (it is not the keyword
    "yesterday", which is recognised before any parsing is tried) and that
    [new Date] cannot parse resolves to the very value "today" resolves to
    at the same instant, error or not; and with a clock after 1970 and a
    zone offset within a day neither raises an error: both are local
    midnight of the current date in ISO form. *)
Theorem unparseable_token_resolves_as_today
    (tz : Z -> bool -> Z) (legacy : string -> date) (now : Z) (input : string) :
  lowered_is (Some input) "yesterday" = false ->
  newDateString tz legacy input = None ->
  parseSinceDate tz legacy now (Some input)
  = parseSinceDate tz legacy now (Some "today")
  /\ ((forall t b, - msPerDay <= tz t b <= msPerDay) ->
      0 <= now <= maxTime - 2 * msPerDay ->
      parseSinceDate tz legacy now (Some input)
      = Ok (iso_string (local_midnight tz now 0))).
Proof.
  intros Hk Hp.
  assert (He : parseSinceDate tz legacy now (Some input)
               = toISOString (midnight_of tz now 0)).
  { unfold parseSinceDate.
    destruct (is_falsy (Some input) || lowered_is (Some input) "today");
      [reflexivity|].
    now rewrite Hk, Hp. }
  split.
  - rewrite He. unfold parseSinceDate.
    replace (is_falsy (Some "today") || lowered_is (Some "today") "today")
      with true by (vm_compute; reflexivity).
    reflexivity.
  - intros Hz Hn. rewrite He.
    rewrite (midnight_of_valid tz Hz) by lia. reflexivity.
Qed.

Lemma unparseable_token_resolves_as_today_witness :
  parseSinceDate (fixed_zone 18000000) (fun _ => None) 1755259200000
    (Some "not-a-date")
  = parseSinceDate (fixed_zone 18000000) (fun _ => None) 1755259200000
      (Some "today")
  /\ parseSinceDate (fixed_zone 18000000) (fun _ => None) 1755259200000
       (Some "not-a-date")
     = Ok "2025-08-14T19:00:00.000Z".
Proof.
  destruct (unparseable_token_resolves_as_today (fixed_zone 18000000)
              (fun _ => None) 1755259200000 "not-a-date") as [E V].
  - reflexivity.
  - reflexivity.
  - split; [exact E|]. rewrite V.
    + vm_compute. reflexivity.
    + intros t b. unfold fixed_zone, msPerDay. lia.
    + unfold maxTime, msPerDay. lia.
Defined.

(** C6, where the code departs from it.  In a zone five hours west of
    Greenwich the token "2025-08-01" resolves to local midnight of
    31 July: a date-only string is parsed as midnight UTC, which is still
    the evening of the day before on the local clock, and the local date of
    that instant is what the function keeps.  Local midnight of 1 August is
    05:00 UTC on 1 August, which is what the same date written with a time
    of day resolves to. *)
Theorem date_only_token_resolves_to_previous_day
    (legacy : string -> date) (now : Z) :
  let tz := fixed_zone (-5 * msPerHour) in
  parseSinceDate tz legacy now (Some "2025-08-01")
  = Ok "2025-07-31T05:00:00.000Z"
  /\ toISOString (newDate3 tz 2025 7 1) = Ok "2025-08-01T05:00:00.000Z"
  /\ parseSinceDate tz legacy now (Some "2025-08-01T00:00")
     = Ok "2025-08-01T05:00:00.000Z".
Proof. cbv zeta. repeat split; vm_compute; reflexivity. Qed.

(** East of Greenwich the same token resolves to the date it names. *)
Example date_only_token_east (legacy : string -> date) (now : Z) :
  parseSinceDate (fixed_zone (5 * msPerHour)) legacy now (Some "2025-08-01")
  = toISOString (newDate3 (fixed_zone (5 * msPerHour)) 2025 7 1).
Proof. vm_compute. reflexivity. Qed.

End ResolverFacts.

(** ** The Prompt Assembler *)

Module PromptFacts.

Lemma sapp_nil_r (s : string) : s +:+ "" = s.
Proof.
  induction s as [|c s IH]; [reflexivity|].
  change (String c (s +:+ "") = String c s). now rewrite IH.
Qed.

Lemma sapp_assoc (a b c : string) : (a +:+ b) +:+ c = a +:+ (b +:+ c).
Proof.
  induction a as [|x a IH]; [reflexivity|].
  change (String x ((a +:+ b) +:+ c) = String x (a +:+ (b +:+ c))).
  now rewrite IH.
Qed.

Lemma concat_empty_cons (a : string) (l : list string) :
  String.concat "" (a :: l) = a +:+ String.concat "" l.
Proof.
  destruct l as [|b l]; [|reflexivity].
  change (a = a +:+ ""). now rewrite sapp_nil_r.
Qed.

(** Once an element has been appended, the loop adds a separator before
    each further element. *)
Lemma join_loop_later (sep : string) (xs : list string) :
  forall (k : nat) (R : string),
    JSString.join_loop sep (S k) R xs
    = R +:+ String.concat "" (List.map (fun x => sep +:+ x) xs).
Proof.
  induction xs as [|x xs IH]; intros k R.
  - change (R = R +:+ ""). now rewrite sapp_nil_r.
  - change (JSString.join_loop sep (S (S k)) ((R +:+ sep) +:+ x) xs
            = R +:+ String.concat "" ((sep +:+ x) :: List.map (fun y => sep +:+ y) xs)).
    rewrite IH, concat_empty_cons. now rewrite !sapp_assoc.
Qed.

Lemma concat_cons (sep x : string) (xs : list string) :
  String.concat sep (x :: xs)
  = x +:+ String.concat "" (List.map (fun y => sep +:+ y) xs).
Proof.
  revert x. induction xs as [|y ys IH]; intros x.
  - change (x = x +:+ ""). now rewrite sapp_nil_r.
  - change (x +:+ sep +:+ String.concat sep (y :: ys)
            = x +:+ String.concat "" ((sep +:+ y) :: List.map (fun z => sep +:+ z) ys)).
    rewrite IH, concat_empty_cons. now rewrite !sapp_assoc.
Qed.

(** The loop of [Array.prototype.join] computes the elements in their
    order with the separator between neighbours. *)
Lemma join_concat (sep : string) (xs : list string) :
  JSString.join sep xs = String.concat sep xs.
Proof.
  unfold JSString.join. destruct xs as [|x xs]; [reflexivity|].
  cbn [JSString.join_loop]. rewrite join_loop_later, concat_cons.
  reflexivity.
Qed.

(** C9. The prompt is the fixed head of the template, the diff texts of the
    batch in their order with the separator (two line feeds, three dashes,
    two line feeds) between neighbours, and the fixed tail; the function
    reads nothing but its argument, so equal batches give equal prompts. *)
Theorem assemble_is_template_around_joined_diffs (batch : list string) :
  buildPromptFromDiffs batch
  = prompt_head +:+ String.concat diff_separator batch +:+ prompt_tail
  /\ diff_separator
     = String.concat "" [nl; nl; "---"; nl; nl]
  /\ String.length diff_separator = 7%nat
  /\ forall batch' : list string,
       batch' = batch -> buildPromptFromDiffs batch' = buildPromptFromDiffs batch.
Proof.
  split; [|split; [|split]].
  - unfold buildPromptFromDiffs. now rewrite join_concat.
  - reflexivity.
  - reflexivity.
  - intros batch' ->. reflexivity.
Qed.

Lemma assemble_is_template_around_joined_diffs_witness :
  buildPromptFromDiffs ["d1"; "d2"]
  = prompt_head +:+ ("d1" +:+ diff_separator +:+ "d2") +:+ prompt_tail.
Proof.
  exact (proj1 (assemble_is_template_around_joined_diffs ["d1"; "d2"])).
Defined.

(** An empty batch and a batch of one give the template around nothing and
    around the single diff, without separator. *)
Example assemble_small :
  buildPromptFromDiffs [] = prompt_head +:+ prompt_tail
  /\ buildPromptFromDiffs ["d"] = prompt_head +:+ "d" +:+ prompt_tail.
Proof. split; reflexivity. Qed.

End PromptFacts.

(** ** Paths *)

Module PathFacts.
Import Path PromptFacts.

Lemma rev_app_app (a b : string) :
  String.rev_app a b = String.rev_app a "" +:+ b.
Proof.
  revert b. induction a as [|c a IH]; intros b; [reflexivity|].
  cbn [String.rev_app]. rewrite (IH (String c b)), (IH (String c "")).
  now rewrite sapp_assoc.
Qed.

Lemma rev_cons (c : ascii) (cur s : string) :
  String.rev (String c cur) +:+ s = String.rev cur +:+ String c s.
Proof.
  unfold String.rev. cbn [String.rev_app].
  rewrite (rev_app_app cur (String c "")). now rewrite sapp_assoc.
Qed.

Lemma split_go_nonempty (cur s : string) : split_go cur s <> [].
Proof.
  revert cur. induction s as [|c s IH]; intros cur; cbn [split_go].
  - discriminate.
  - destruct (Ascii.eqb c "/"); [discriminate | apply IH].
Qed.

Lemma concat_cons_nonempty (sep x : string) (l : list string) :
  l <> [] -> String.concat sep (x :: l) = x +:+ sep +:+ String.concat sep l.
Proof. destruct l; [congruence | reflexivity]. Qed.

(** Joining the segments of a path gives the path back. *)
Lemma concat_split_go (s : string) :
  forall cur, String.concat "/" (split_go cur s) = String.rev cur +:+ s.
Proof.
  induction s as [|c s IH]; intros cur; cbn [split_go].
  - cbn [String.concat]. now rewrite sapp_nil_r.
  - destruct (Ascii.eqb_spec c "/") as [->|_].
    + rewrite concat_cons_nonempty by apply split_go_nonempty.
      rewrite IH. reflexivity.
    + rewrite IH. apply rev_cons.
Qed.

Lemma join_split (s : string) : JSString.join "/" (split s) = s.
Proof. rewrite join_concat. apply (concat_split_go s ""). Qed.

Lemma split_go_no_slash (s : string) :
  forall cur, no_slash s = true -> split_go cur s = [String.rev cur +:+ s].
Proof.
  induction s as [|c s IH]; intros cur Hs; cbn [split_go].
  - now rewrite sapp_nil_r.
  - cbn [no_slash] in Hs. apply andb_true_iff in Hs as [Hc Hs].
    destruct (Ascii.eqb c "/"); [discriminate|].
    rewrite IH by assumption. now rewrite rev_cons.
Qed.

Lemma split_go_app (a b : string) :
  forall cur,
    split_go cur (a +:+ String "/" b) = split_go cur a ++ split b.
Proof.
  induction a as [|c a IH]; intros cur.
  - reflexivity.
  - change (String c a +:+ String "/" b) with (String c (a +:+ String "/" b)).
    cbn [split_go]. destruct (Ascii.eqb c "/"); rewrite IH; reflexivity.
Qed.

Lemma plain_step (allow : bool) (stack : list string) (seg : string) :
  plain_segment seg = true -> step allow stack seg = seg :: stack.
Proof.
  unfold plain_segment, step. intros Hp.
  repeat (apply andb_true_iff in Hp as [Hp ?]).
  destruct (String.eqb seg ""); [discriminate|].
  destruct (String.eqb seg "."); [discriminate|].
  destruct (String.eqb seg ".."); [discriminate|]. reflexivity.
Qed.

Lemma plain_fold (allow : bool) (segs : list string) :
  forall stack,
    forallb plain_segment segs = true ->
    fold_left (step allow) segs stack = List.rev segs ++ stack.
Proof.
  induction segs as [|x segs IH]; intros stack Hp; [reflexivity|].
  cbn [forallb] in Hp. apply andb_true_iff in Hp as [Hx Hp].
  cbn [fold_left List.rev]. rewrite plain_step by assumption.
  rewrite IH by assumption. now rewrite <- app_assoc.
Qed.

(** A path that ends with a slash has an empty last segment. *)
Lemma split_go_trailing (s : string) :
  forall cur,
    ends_with_slash s = true -> exists init, split_go cur s = init ++ [""].
Proof.
  induction s as [|c s IH]; intros cur He; [discriminate|].
  destruct s as [|c' s'].
  - cbn in He. exists [String.rev cur]. cbn [split_go]. now rewrite He.
  - change (ends_with_slash (String c' s') = true) in He.
    cbn [split_go].
    destruct (Ascii.eqb c "/").
    + destruct (IH "" He) as [init Hi]. exists (String.rev cur :: init).
      cbn [split_go] in Hi. now rewrite Hi.
    + destruct (IH (String c cur) He) as [init Hi]. exists init.
      cbn [split_go] in Hi. exact Hi.
Qed.

Lemma forallb_last_plain (init : list string) :
  forallb plain_segment (init ++ [""]) = false.
Proof.
  induction init as [|x init IH]; [reflexivity|].
  cbn [app forallb]. rewrite IH. apply andb_false_r.
Qed.

(** Normalization leaves an absolute path in normal form as it is. *)
Lemma normalize_plain (p : string) :
  plain_absolute p = true -> normalize p = p.
Proof.
  destruct p as [|c r]; [discriminate|]. cbn [plain_absolute].
  intros Hp. apply andb_true_iff in Hp as [Hc Hp].
  apply Ascii.eqb_eq in Hc. subst c.
  assert (Hr : r <> "").
  { intros ->. discriminate Hp. }
  assert (He : ends_with_slash (String "/" r) = false).
  { destruct r as [|c r']; [congruence|].
    change (ends_with_slash (String c r') = false).
    destruct (ends_with_slash (String c r')) eqn:E; [|reflexivity].
    destruct (split_go_trailing _ "" E) as [init Hi].
    unfold split in Hp. rewrite Hi, forallb_last_plain in Hp. discriminate. }
  unfold normalize. cbn [String.eqb starts_with_slash].
  replace (Ascii.eqb "/" "/") with true by reflexivity. cbn [negb].
  rewrite He.
  assert (Hn : normalizeString (String "/" r) false = r).
  { unfold normalizeString, split. cbn [split_go].
    replace (Ascii.eqb "/" "/") with true by reflexivity.
    cbn [fold_left]. unfold step at 2. cbn [String.rev String.rev_app String.eqb orb].
    rewrite plain_fold by exact Hp.
    rewrite app_nil_r, rev_involutive. apply join_split. }
  rewrite Hn.
  destruct (String.eqb_spec r ""); [congruence | reflexivity].
Qed.

Lemma plain_absolute_extend (p seg : string) :
  plain_absolute p = true -> plain_segment seg = true ->
  plain_absolute (p +:+ String "/" seg) = true.
Proof.
  destruct p as [|c r]; [discriminate|]. cbn [plain_absolute].
  intros Hp Hs. apply andb_true_iff in Hp as [Hc Hp].
  change (String c r +:+ String "/" seg) with (String c (r +:+ String "/" seg)).
  cbn [plain_absolute]. rewrite Hc. cbn [andb].
  unfold split in *. rewrite split_go_app, forallb_app, Hp.
  unfold split. rewrite split_go_no_slash.
  - cbn [String.rev String.rev_app forallb]. 
    change ("" +:+ seg) with seg. now rewrite Hs.
  - unfold plain_segment in Hs. now repeat (apply andb_true_iff in Hs as [Hs ?]).
Qed.

Lemma join_two (a b : string) :
  a <> "" -> b <> "" -> join [a; b] = normalize (a +:+ String "/" b).
Proof.
  intros Ha Hb. unfold join. cbn [List.filter].
  destruct (String.eqb_spec a ""); [congruence|].
  destruct (String.eqb_spec b ""); [congruence|]. cbn [negb].
  f_equal. rewrite join_concat. reflexivity.
Qed.

Lemma plain_absolute_nonempty (p : string) : plain_absolute p = true -> p <> "".
Proof. destruct p; [discriminate | congruence]. Qed.

Lemma plain_segment_nonempty (s : string) : plain_segment s = true -> s <> "".
Proof. destruct s; [discriminate | congruence]. Qed.

(** Joining a normal absolute path with plain segments only puts slashes
    between them. *)
Lemma join_plain (p seg : string) :
  plain_absolute p = true -> plain_segment seg = true ->
  join [p; seg] = p +:+ String "/" seg
  /\ plain_absolute (join [p; seg]) = true.
Proof.
  intros Hp Hs.
  rewrite join_two
    by (eauto using plain_absolute_nonempty, plain_segment_nonempty).
  pose proof (plain_absolute_extend p seg Hp Hs) as He.
  rewrite normalize_plain by exact He. split; [reflexivity | exact He].
Qed.

Lemma no_slash_rev_app (a b : string) :
  no_slash a = true -> no_slash b = true -> no_slash (String.rev_app a b) = true.
Proof.
  revert b. induction a as [|c a IH]; intros b Ha Hb; [exact Hb|].
  cbn [no_slash] in Ha. apply andb_true_iff in Ha as [Hc Ha].
  cbn [String.rev_app]. apply IH; [exact Ha|]. cbn [no_slash]. now rewrite Hc.
Qed.

(** The segments of a path contain no slash. *)
Lemma split_go_segments (s : string) :
  forall cur,
    no_slash cur = true ->
    Forall (fun x => no_slash x = true) (split_go cur s).
Proof.
  induction s as [|c s IH]; intros cur Hc; cbn [split_go].
  - constructor; [|constructor]. now apply no_slash_rev_app.
  - destruct (Ascii.eqb c "/") eqn:E.
    + constructor; [now apply no_slash_rev_app | now apply IH].
    + apply IH. cbn [no_slash]. now rewrite E.
Qed.

Lemma plain_or_special (seg : string) :
  no_slash seg = true ->
  seg = "" \/ seg = "." \/ seg = ".." \/ plain_segment seg = true.
Proof.
  intros Hs. unfold plain_segment. rewrite Hs.
  destruct (String.eqb_spec seg ""); [now left|].
  destruct (String.eqb_spec seg "."); [now right; left|].
  destruct (String.eqb_spec seg ".."); [now right; right; left|].
  now right; right; right.
Qed.

Lemma step_empty (allow : bool) (K : list string) : step allow K "" = K.
Proof. reflexivity. Qed.

Lemma step_dot (allow : bool) (K : list string) : step allow K "." = K.
Proof. reflexivity. Qed.

Lemma normal_stack_nil (allow : bool) : normal_stack allow [].
Proof. exists [], 0%nat. repeat split. Qed.

Lemma repeat_snoc {A} (x : A) (n : nat) : x :: repeat x n = repeat x n ++ [x].
Proof. induction n as [|n IH]; [reflexivity|]. cbn. now rewrite <- IH. Qed.

Lemma step_normal (allow : bool) (K : list string) (seg : string) :
  no_slash seg = true -> normal_stack allow K ->
  normal_stack allow (step allow K seg).
Proof.
  intros Hs HK.
  destruct (plain_or_special seg Hs) as [-> | [-> | [-> | Hp]]].
  - now rewrite step_empty.
  - now rewrite step_dot.
  - destruct HK as (plains & n & -> & Hpl & Hn).
    unfold step. cbn [String.eqb Ascii.eqb Bool.eqb orb].
    destruct plains as [|p plains]; cbn [app].
    + destruct n as [|n]; cbn [repeat].
      * destruct allow; [|apply normal_stack_nil].
        exists [], 1%nat. repeat split. discriminate.
      * cbn [String.eqb Ascii.eqb Bool.eqb].
        destruct allow.
        -- exists [], (S (S n)). repeat split. discriminate.
        -- exists [], (S n). repeat split. exact Hn.
    + cbn [forallb] in Hpl. apply andb_true_iff in Hpl as [Hp Hpl].
      assert (E : String.eqb p ".." = false).
      { unfold plain_segment in Hp.
        apply andb_true_iff in Hp as [_ Hp]. now apply negb_true_iff. }
      rewrite E. exists plains, n. repeat split; assumption.
  - rewrite plain_step by exact Hp.
    destruct HK as (plains & n & -> & Hpl & Hn).
    exists (seg :: plains), n. repeat split; [|exact Hn].
    cbn [forallb]. now rewrite Hp, Hpl.
Qed.

Lemma fold_normal (allow : bool) (segs : list string) :
  forall K,
    Forall (fun x => no_slash x = true) segs -> normal_stack allow K ->
    normal_stack allow (fold_left (step allow) segs K).
Proof.
  induction segs as [|x segs IH]; intros K Hs HK; [exact HK|].
  inversion Hs; subst. cbn [fold_left]. apply IH; [assumption|].
  now apply step_normal.
Qed.

Lemma fold_dots (n : nat) :
  forall m,
    fold_left (step true) (repeat ".." n) (repeat ".." m)
    = repeat ".." (n + m).
Proof.
  induction n as [|n IH]; intros m; [reflexivity|].
  cbn [repeat fold_left].
  replace (step true (repeat ".." m) "..") with (repeat ".." (S m)).
  - rewrite IH. f_equal. lia.
  - destruct m; reflexivity.
Qed.

Lemma rev_repeat {A} (x : A) (n : nat) : List.rev (repeat x n) = repeat x n.
Proof.
  induction n as [|n IH]; [reflexivity|].
  cbn [repeat List.rev]. rewrite IH. symmetry. apply repeat_snoc.
Qed.

(** Normalizing the segments of a normal stack builds the stack again. *)
Lemma fold_stable (allow : bool) (K : list string) :
  normal_stack allow K -> fold_left (step allow) (List.rev K) [] = K.
Proof.
  intros (plains & n & -> & Hpl & Hn).
  rewrite rev_app_distr, rev_repeat, fold_left_app.
  assert (Hd : fold_left (step allow) (repeat ".." n) [] = repeat ".." n).
  { destruct allow.
    - change (@nil string) with (repeat ".." 0). rewrite fold_dots.
      f_equal. lia.
    - rewrite (Hn eq_refl). reflexivity. }
  rewrite Hd, plain_fold.
  - now rewrite rev_involutive.
  - rewrite forallb_forall in *. intros x Hx. apply Hpl.
    now apply in_rev.
Qed.

Lemma normal_stack_segments (allow : bool) (K : list string) :
  normal_stack allow K ->
  Forall (fun x => no_slash x = true /\ x <> "") K.
Proof.
  intros (plains & n & -> & Hpl & _). apply Forall_app. split.
  - apply Forall_forall. intros x Hx. rewrite forallb_forall in Hpl.
    apply list_elem_of_In in Hx. apply Hpl in Hx. unfold plain_segment in Hx.
    repeat (apply andb_true_iff in Hx as [Hx ?]).
    split; [assumption|]. intros ->. discriminate.
  - apply Forall_forall. intros x Hx. apply list_elem_of_In in Hx.
    apply repeat_spec in Hx. subst. split; [reflexivity | discriminate].
Qed.

Lemma split_concat (segs : list string) :
  segs <> [] -> Forall (fun x => no_slash x = true) segs ->
  split (String.concat "/" segs) = segs.
Proof.
  induction segs as [|x segs IH]; intros Hne Hs; [congruence|].
  inversion Hs; subst.
  destruct segs as [|y segs].
  - cbn [String.concat]. unfold split. now rewrite split_go_no_slash.
  - rewrite concat_cons_nonempty by discriminate.
    change ("/" +:+ String.concat "/" (y :: segs))
      with (String "/" (String.concat "/" (y :: segs))).
    unfold split. rewrite split_go_app, split_go_no_slash by assumption.
    cbn [app String.rev String.rev_app]. change ("" +:+ x) with x. f_equal.
    apply IH; [discriminate | assumption].
Qed.

Lemma starts_with_slash_app (a b : string) :
  a <> "" -> starts_with_slash (a +:+ b) = starts_with_slash a.
Proof. destruct a; [congruence | reflexivity]. Qed.

Lemma ends_with_slash_app (a b : string) :
  b <> "" -> ends_with_slash (a +:+ b) = ends_with_slash b.
Proof.
  intros Hb. induction a as [|c a IH]; [reflexivity|].
  change (String c a +:+ b) with (String c (a +:+ b)).
  cbn [ends_with_slash]. destruct (a +:+ b) eqn:E; [|exact IH].
  destruct a; [|discriminate]. change (b = "") in E. congruence.
Qed.

Lemma ends_with_slash_plain (f : string) :
  no_slash f = true -> ends_with_slash f = false.
Proof.
  induction f as [|c f IH]; [reflexivity|]. cbn [no_slash]. intros Hf.
  apply andb_true_iff in Hf as [Hc Hf]. apply negb_true_iff in Hc.
  cbn [ends_with_slash]. destruct f; [exact Hc | now apply IH].
Qed.

Lemma concat_snoc (l : list string) (f : string) :
  String.concat "/" (l ++ [f])
  = match l with
    | [] => f
    | _ => String.concat "/" l +:+ String "/" f
    end.
Proof.
  induction l as [|x l IH]; [reflexivity|].
  destruct l as [|y l]; [reflexivity|].
  change (String.concat "/" ((x :: y :: l) ++ [f]))
    with (x +:+ "/" +:+ String.concat "/" ((y :: l) ++ [f])).
  rewrite IH. change (String.concat "/" (x :: y :: l))
    with (x +:+ "/" +:+ String.concat "/" (y :: l)).
  now rewrite !sapp_assoc.
Qed.

Lemma sapp_nonempty_r (a b : string) : b <> "" -> a +:+ b <> "".
Proof. destruct a; [now cbn | discriminate]. Qed.

Lemma concat_snoc_nonempty (l : list string) (f : string) :
  f <> "" -> String.concat "/" (l ++ [f]) <> "".
Proof.
  intros Hf. rewrite concat_snoc. destruct l; [exact Hf|].
  apply sapp_nonempty_r. discriminate.
Qed.

(** The normal form of a path followed by a plain file name. *)
Lemma normalize_file (q f : string) :
  q <> "" -> plain_segment f = true ->
  normalize (q +:+ String "/" f)
  = (if starts_with_slash q then "/" else "")
    +:+ String.concat "/"
          (List.rev
             (f :: fold_left (step (negb (starts_with_slash q))) (split q) [])).
Proof.
  intros Hq Hf.
  assert (Hfs : no_slash f = true /\ f <> "").
  { unfold plain_segment in Hf. repeat (apply andb_true_iff in Hf as [Hf ?]).
    split; [assumption|]. intros ->. discriminate. }
  destruct Hfs as [Hfs Hfne].
  unfold normalize.
  destruct (String.eqb_spec (q +:+ String "/" f) "") as [E|_].
  { exfalso. revert E. apply sapp_nonempty_r. discriminate. }
  rewrite starts_with_slash_app by exact Hq.
  rewrite ends_with_slash_app by discriminate.
  replace (ends_with_slash (String "/" f)) with false.
  2: { symmetry. destruct f; [congruence|].
       change (ends_with_slash (String "/" (String a f)))
         with (ends_with_slash (String a f)).
       now apply ends_with_slash_plain. }
  unfold normalizeString, split. rewrite split_go_app, fold_left_app.
  unfold split. rewrite (split_go_no_slash f "") by exact Hfs.
  cbn [String.rev String.rev_app fold_left]. change ("" +:+ f) with f.
  rewrite plain_step by exact Hf. rewrite join_concat.
  set (K := fold_left _ (split_go "" q) []).
  cbn [List.rev].
  destruct (String.eqb_spec (String.concat "/" (List.rev K ++ [f])) "") as [E|_].
  { exfalso. revert E. now apply concat_snoc_nonempty. }
  destruct (starts_with_slash q); reflexivity.
Qed.

Lemma concat_empty (l : list string) :
  Forall (fun x => x <> "") l -> String.concat "/" l = "" -> l = [].
Proof.
  intros Hl E. destruct l as [|x l]; [reflexivity|]. exfalso.
  inversion Hl; subst. destruct l as [|y l].
  - cbn in E. congruence.
  - rewrite concat_cons_nonempty in E by discriminate.
    destruct x; [congruence | discriminate].
Qed.

Lemma starts_with_slash_concat (l : list string) :
  Forall (fun x => no_slash x = true /\ x <> "") l ->
  starts_with_slash (String.concat "/" l) = false.
Proof.
  intros Hl. destruct l as [|x l]; [reflexivity|].
  inversion Hl as [|? ? [Hx Hne] Hr]; subst.
  assert (Hs : starts_with_slash x = false).
  { destruct x as [|c x]; [congruence|]. cbn [no_slash] in Hx.
    apply andb_true_iff in Hx as [Hc _]. now apply negb_true_iff in Hc. }
  destruct l as [|y l]; [exact Hs|].
  rewrite concat_cons_nonempty by discriminate.
  now rewrite starts_with_slash_app.
Qed.

(** What normalization needs to know about a path that was normalized:
    it is as absolute as the path was, and its segments build the same
    stack. *)
Lemma normalize_again (p : string) :
  p <> "" ->
  normalize p <> ""
  /\ starts_with_slash (normalize p) = starts_with_slash p
  /\ fold_left (step (negb (starts_with_slash p))) (split (normalize p)) []
     = fold_left (step (negb (starts_with_slash p))) (split p) [].
Proof.
  intros Hp. unfold normalize.
  destruct (String.eqb_spec p "") as [|_]; [congruence|].
  unfold normalizeString. rewrite join_concat.
  set (allow := negb (starts_with_slash p)).
  set (K := fold_left (step allow) (split p) []).
  assert (HK : normal_stack allow K).
  { apply fold_normal; [|apply normal_stack_nil].
    now apply split_go_segments. }
  pose proof (normal_stack_segments allow K HK) as Hseg.
  assert (Hrev : Forall (fun x => no_slash x = true /\ x <> "") (List.rev K)).
  { apply Forall_forall. intros x Hx. rewrite Forall_forall in Hseg.
    apply Hseg. apply list_elem_of_In. apply in_rev.
    now apply list_elem_of_In. }
  destruct (String.eqb_spec (String.concat "/" (List.rev K)) "") as [E|NE].
  - assert (HKnil : K = []).
    { apply concat_empty in E.
      - apply (f_equal (@List.rev string)) in E.
        now rewrite rev_involutive in E.
      - eapply Forall_impl; [exact Hrev|]. now intros x [_ ?]. }
    rewrite HKnil. subst allow.
    destruct (starts_with_slash p); [repeat split; discriminate|].
    destruct (ends_with_slash p); repeat split; discriminate.
  - set (J := String.concat "/" (List.rev K)) in *.
    assert (HJs : starts_with_slash J = false)
      by now apply starts_with_slash_concat.
    assert (Hsplit : split J = List.rev K).
    { apply split_concat.
      - intros E. apply NE. subst J. now rewrite E.
      - eapply Forall_impl; [exact Hrev|]. now intros x [? _]. }
    assert (Hfold : forall tail,
               (tail = [] \/ tail = [""]) ->
               fold_left (step allow) (List.rev K ++ tail) [] = K).
    { intros tail Ht. rewrite fold_left_app, (fold_stable allow K HK).
      destruct Ht as [-> | ->]; reflexivity. }
    assert (HJt : split (J +:+ "/") = List.rev K ++ [""]).
    { unfold split. change (J +:+ "/") with (J +:+ String "/" "").
      rewrite split_go_app. fold (split J). now rewrite Hsplit. }
    assert (HJne : J <> "") by exact NE.
    destruct (starts_with_slash p) eqn:Eabs; subst allow; cbn [negb] in *.
    + destruct (ends_with_slash p).
      * split; [discriminate|]. split; [reflexivity|].
        change (split ("/" +:+ J +:+ "/")) with ("" :: split (J +:+ "/")).
        cbn [fold_left]. rewrite step_empty, HJt. apply Hfold. now right.
      * split; [discriminate|]. split; [reflexivity|].
        change (split ("/" +:+ J)) with ("" :: split J).
        cbn [fold_left]. rewrite step_empty, Hsplit.
        rewrite <- (app_nil_r (List.rev K)). apply Hfold. now left.
    + destruct (ends_with_slash p).
      * split; [now apply sapp_nonempty_r|].
        split; [now rewrite starts_with_slash_app|].
        rewrite HJt. apply Hfold. now right.
      * split; [exact HJne|]. split; [exact HJs|].
        rewrite Hsplit. rewrite <- (app_nil_r (List.rev K)).
        apply Hfold. now left.
Qed.

(** Joining in two steps or at once gives the same path. *)
Lemma join_join_file (a b f : string) :
  a <> "" -> b <> "" -> plain_segment f = true ->
  join [join [a; b]; f] = normalize (a +:+ "/" +:+ b +:+ "/" +:+ f).
Proof.
  intros Ha Hb Hf.
  assert (Hfne : f <> "") by (intros ->; discriminate).
  assert (Hp : a +:+ String "/" b <> "")
    by (apply sapp_nonempty_r; discriminate).
  rewrite (join_two a b Ha Hb).
  destruct (normalize_again _ Hp) as (Hn & Habs & Hfold).
  rewrite (join_two _ f Hn Hfne).
  rewrite (normalize_file _ f Hn Hf).
  replace (a +:+ "/" +:+ b +:+ "/" +:+ f)
    with ((a +:+ String "/" b) +:+ String "/" f)
    by now rewrite !sapp_assoc.
  rewrite (normalize_file _ f Hp Hf).
  now rewrite Habs, Hfold.
Qed.

End PathFacts.

(** ** The dated name of the report *)

Module DateNameFacts.
Import JSDate DateFacts PromptFacts.

Lemma no_slash_app (a b : string) :
  no_slash (a +:+ b) = no_slash a && no_slash b.
Proof.
  induction a as [|c a IH]; [reflexivity|].
  change (String c a +:+ b) with (String c (a +:+ b)).
  cbn [no_slash]. rewrite IH. now rewrite andb_assoc.
Qed.

Lemma digit_char_no_slash (n : Z) :
  Ascii.eqb (ascii_of_nat (Z.to_nat (48 + n mod 10))) "/" = false.
Proof.
  assert (Hn : 0 <= n mod 10 < 10) by (apply Z.mod_pos_bound; lia).
  assert (Hc : n mod 10 = 0 \/ n mod 10 = 1 \/ n mod 10 = 2 \/ n mod 10 = 3
               \/ n mod 10 = 4 \/ n mod 10 = 5 \/ n mod 10 = 6
               \/ n mod 10 = 7 \/ n mod 10 = 8 \/ n mod 10 = 9) by lia.
  repeat (destruct Hc as [-> | Hc]; [reflexivity|]). now rewrite Hc.
Qed.

Lemma no_slash_pad (w : nat) : forall n, no_slash (pad w n) = true.
Proof.
  induction w as [|w IH]; intros n; [reflexivity|].
  cbn [pad]. rewrite no_slash_app, IH. cbn [no_slash andb].
  now rewrite digit_char_no_slash.
Qed.

Lemma no_slash_year (y : Z) : no_slash (year_string y) = true.
Proof.
  unfold year_string.
  destruct ((0 <=? y) && (y <=? 9999)); [apply no_slash_pad|].
  destruct (y <? 0); rewrite no_slash_app, no_slash_pad; reflexivity.
Qed.

Lemma no_slash_iso (t : Z) : no_slash (iso_string t) = true.
Proof.
  unfold iso_string.
  repeat rewrite no_slash_app. rewrite no_slash_year, !no_slash_pad.
  reflexivity.
Qed.

Lemma no_slash_substring (s : string) :
  forall n m, no_slash s = true -> no_slash (substring n m s) = true.
Proof.
  induction s as [|c s IH]; intros n m Hs.
  - destruct n, m; reflexivity.
  - cbn [no_slash] in Hs. apply andb_true_iff in Hs as [Hc Hs].
    destruct n as [|n]; cbn [substring].
    + destruct m as [|m]; [reflexivity|].
      cbn [no_slash]. rewrite Hc. now apply IH.
    + now apply IH.
Qed.

Lemma length_app (a b : string) :
  String.length (a +:+ b) = (String.length a + String.length b)%nat.
Proof.
  induction a as [|c a IH]; [reflexivity|].
  change (String c a +:+ b) with (String c (a +:+ b)).
  cbn [String.length]. now rewrite IH.
Qed.

(** The name of the report file is a plain path segment. *)
Lemma report_name_plain (H : host) :
  plain_segment (out_date H +:+ ".md") = true.
Proof.
  unfold plain_segment.
  assert (Hs : no_slash (out_date H +:+ ".md") = true).
  { rewrite no_slash_app. unfold out_date, JSString.slice0.
    rewrite no_slash_substring by apply no_slash_iso. reflexivity. }
  rewrite Hs. cbn [andb].
  assert (Hl : (3 <= String.length (out_date H +:+ ".md"))%nat).
  { rewrite length_app. cbn. lia. }
  destruct (out_date H +:+ ".md") as [|c1 [|c2 [|c3 r]]]; cbn in Hl; try lia.
  cbn [String.eqb].
  destruct (Ascii.eqb c1 "."); [|reflexivity].
  destruct (Ascii.eqb c2 "."); reflexivity.
Qed.

Lemma length_pad (w : nat) : forall n, String.length (pad w n) = w.
Proof.
  induction w as [|w IH]; intros n; [reflexivity|].
  cbn [pad]. rewrite length_app, IH. cbn. lia.
Qed.

Lemma substring_app (a b : string) :
  forall k : nat,
    substring 0 (String.length a + k) (a +:+ b) = a +:+ substring 0 k b.
Proof.
  induction a as [|c a IH]; intros k; [reflexivity|].
  change (String c a +:+ b) with (String c (a +:+ b)).
  cbn [String.length Nat.add substring]. now rewrite IH.
Qed.

Lemma YearFromTime_upper (t : Z) :
  t < 253402300800000 -> YearFromTime t <= 9999.
Proof.
  intros Ht.
  pose proof (YearFromTime_spec t) as [Hlow _].
  assert (Hd : Day t < 2932897).
  { unfold Day, msPerDay. Z.div_mod_to_equations. lia. }
  destruct (Z_le_gt_dec (YearFromTime t) 9999) as [|Hgt]; [assumption|].
  exfalso. revert Hlow. unfold DayFromYear.
  generalize dependent (YearFromTime t). intros y Hy.
  Z.div_mod_to_equations. lia.
Qed.

(** For an instant in the years 1970 to 9999 the date of the report is the
    UTC date of the instant written as YYYY-MM-DD. *)
Lemma out_date_form (H : host) :
  0 <= now_write H < 253402300800000 ->
  out_date H
  = pad 4 (YearFromTime (now_write H)) +:+ "-"
    +:+ pad 2 (MonthFromTime (now_write H) + 1) +:+ "-"
    +:+ pad 2 (DateFromTime (now_write H)).
Proof.
  intros [Hlo Hhi]. unfold out_date, JSString.slice0, iso_string.
  set (t := now_write H) in *.
  assert (Hy : 1969 <= YearFromTime t <= 9999).
  { split; [apply YearFromTime_lower; unfold msPerDay; lia
           | now apply YearFromTime_upper]. }
  unfold year_string.
  replace ((0 <=? YearFromTime t) && (YearFromTime t <=? 9999)) with true
    by (symmetry; apply andb_true_iff; split; apply Z.leb_le; lia).
  replace 10%nat with (String.length (pad 4 (YearFromTime t)) + 6)%nat
    by now rewrite length_pad.
  rewrite substring_app. reflexivity.
Qed.

End DateNameFacts.

(** ** Running the pipeline *)

Module RunFacts.

Lemma add_events_nil (w : world) : add_events w [] = w.
Proof. destruct w. unfold add_events. cbn. now rewrite app_nil_r. Qed.

Lemma add_events_app (w : world) (a b : list event) :
  add_events (add_events w a) b = add_events w (a ++ b).
Proof. unfold add_events. cbn. now rewrite app_assoc. Qed.

Lemma files_add_events (w : world) (evs : list event) :
  files (add_events w evs) = files w.
Proof. reflexivity. Qed.

Lemma trace_add_events (w : world) (evs : list event) :
  trace (add_events w evs) = trace w ++ evs.
Proof. reflexivity. Qed.

Lemma uniform_fst {A} (m : M A) o evs w : uniform m o evs -> fst (m w) = o.
Proof. intros U. now rewrite U. Qed.

Lemma uniform_snd {A} (m : M A) o evs w :
  uniform m o evs -> snd (m w) = add_events w evs.
Proof. intros U. now rewrite U. Qed.

Lemma uniform_ret {A} (a : A) : uniform (mret a) (Ret a) [].
Proof. intros w. unfold mret, M_ret. now rewrite add_events_nil. Qed.

Lemma uniform_throw {A} (e : jserror) : uniform (@throw A e) (Throw e) [].
Proof. intros w. unfold throw. now rewrite add_events_nil. Qed.

Lemma uniform_settle {A} (r : result A) : uniform (settle r) (to_outcome r) [].
Proof. intros w. unfold settle. now rewrite add_events_nil. Qed.

Lemma uniform_emit (e : event) : uniform (emit e) (Ret tt) [e].
Proof. intros w. reflexivity. Qed.

Lemma uniform_bind_ret {A B} (m : M A) (k : A -> M B) a evs o evs' :
  uniform m (Ret a) evs -> uniform (k a) o evs' ->
  uniform (m ≫= k) o (evs ++ evs').
Proof.
  intros Um Uk w. unfold mbind, M_bind. rewrite Um, Uk.
  now rewrite add_events_app.
Qed.

Lemma uniform_bind_ret' {A B} (m : M A) (k : A -> M B) a evs o evs' all :
  uniform m (Ret a) evs -> uniform (k a) o evs' -> all = evs ++ evs' ->
  uniform (m ≫= k) o all.
Proof. intros Um Uk ->. now apply uniform_bind_ret with (a := a). Qed.

Lemma uniform_bind_throw {A B} (m : M A) (k : A -> M B) e evs :
  uniform m (Throw e) evs -> uniform (m ≫= k) (Throw e) evs.
Proof. intros Um w. unfold mbind, M_bind. now rewrite Um. Qed.

Section WithHost.
Variable H : host.

Lemma uniform_exec (cmd : string) (mb : Z) :
  uniform (exec H cmd mb) (Ret (exec_callback_args H cmd mb)) [ExecCmd cmd mb].
Proof.
  unfold exec.
  eapply uniform_bind_ret';
    [apply uniform_emit | apply uniform_ret | reflexivity].
Qed.

Lemma uniform_getCommitHashes (repo since : string) :
  uniform (getCommitHashes H repo since)
    (to_outcome (hashes_callback
                   (exec_callback_args H (git_log_cmd repo since)
                      default_maxBuffer)))
    [log_event repo since].
Proof.
  unfold getCommitHashes.
  eapply uniform_bind_ret';
    [apply uniform_exec | apply uniform_settle | reflexivity].
Qed.

Lemma uniform_getCommitDiff (repo h : string) :
  uniform (getCommitDiff H repo h)
    (to_outcome (diff_callback
                   (exec_callback_args H (git_show_cmd repo h) diff_maxBuffer)))
    [show_event repo h].
Proof.
  unfold getCommitDiff.
  eapply uniform_bind_ret';
    [apply uniform_exec | apply uniform_settle | reflexivity].
Qed.

(** Whether a fetch succeeds does not depend on the world it runs in. *)
Lemma getCommitDiff_fst (repo h : string) (w w' : world) :
  fst (getCommitDiff H repo h w) = fst (getCommitDiff H repo h w').
Proof.
  now rewrite !(uniform_fst _ _ _ _ (uniform_getCommitDiff repo h)).
Qed.

Lemma getCommitHashes_fst (repo since : string) (w w' : world) :
  fst (getCommitHashes H repo since w) = fst (getCommitHashes H repo since w').
Proof.
  now rewrite !(uniform_fst _ _ _ _ (uniform_getCommitHashes repo since)).
Qed.

(** The loop fetches the hashes in order and stops at the first fetch that
    fails; it adds one [git show] per fetch and nothing else. *)
Lemma fetch_loop_uniform (repo : string) (w0 : world) (hs : list string) :
  forall acc : list string,
    (exists ds,
        uniform (fetch_loop H repo hs acc) (Ret (acc ++ ds))
          (List.map (show_event repo) hs)
        /\ Forall2 (fun h d => fst (getCommitDiff H repo h w0) = Ret d) hs ds)
    \/ (exists e pre h post,
           hs = pre ++ h :: post
           /\ uniform (fetch_loop H repo hs acc) (Throw e)
                (List.map (show_event repo) (pre ++ [h]))
           /\ Forall (fun h' => exists d, fst (getCommitDiff H repo h' w0) = Ret d)
                pre
           /\ fst (getCommitDiff H repo h w0) = Throw e).
Proof.
  induction hs as [|h hs IH]; intros acc.
  - left. exists []. split; [|constructor].
    rewrite app_nil_r. apply uniform_ret.
  - pose proof (uniform_getCommitDiff repo h) as Ud.
    pose proof (uniform_fst _ _ _ w0 Ud) as Hd.
    destruct (diff_callback _) as [d|e] eqn:Ed; cbn [to_outcome] in *.
    + destruct (IH (acc ++ [d])) as [(ds & U & F) | (e & pre & h' & post & -> & U & F & T)].
      * left. exists (d :: ds). split.
        -- replace (acc ++ d :: ds) with ((acc ++ [d]) ++ ds)
             by now rewrite <- app_assoc.
           eapply uniform_bind_ret'; [exact Ud | exact U | reflexivity].
        -- constructor; assumption.
      * right. exists e, (h :: pre), h', post. repeat split.
        -- eapply uniform_bind_ret'; [exact Ud | exact U | reflexivity].
        -- constructor; [eauto | assumption].
        -- assumption.
    + right. exists e, [], h, hs. repeat split.
      * apply uniform_bind_throw. exact Ud.
      * constructor.
      * assumption.
Qed.

(** The extractor: the history query, then the loop over the first ten. *)
Lemma getCommitDiffs_uniform (repo since : string) (w0 : world) :
  (exists e,
      fst (getCommitHashes H repo since w0) = Throw e
      /\ uniform (getCommitDiffs H repo since) (Throw e) [log_event repo since])
  \/ (exists hashes,
         fst (getCommitHashes H repo since w0) = Ret hashes
         /\ ((exists ds,
                 uniform (getCommitDiffs H repo since) (Ret ds)
                   (log_event repo since
                      :: List.map (show_event repo) (slice_0_10 hashes))
                 /\ Forall2 (fun h d => fst (getCommitDiff H repo h w0) = Ret d)
                      (slice_0_10 hashes) ds)
             \/ (exists e pre h post,
                    slice_0_10 hashes = pre ++ h :: post
                    /\ uniform (getCommitDiffs H repo since) (Throw e)
                         (log_event repo since
                            :: List.map (show_event repo) (pre ++ [h]))
                    /\ Forall
                         (fun h' => exists d,
                              fst (getCommitDiff H repo h' w0) = Ret d) pre
                    /\ fst (getCommitDiff H repo h w0) = Throw e))).
Proof.
  pose proof (uniform_getCommitHashes repo since) as Uh.
  rewrite (uniform_fst _ _ _ w0 Uh).
  unfold getCommitDiffs.
  destruct (hashes_callback _) as [hashes|e]; cbn [to_outcome] in *.
  - right. exists hashes. split; [reflexivity|].
    destruct (fetch_loop_uniform repo w0 (slice_0_10 hashes) [])
      as [(ds & U & F) | (e & pre & h & post & E & U & F & T)].
    + left. exists ds. split; [|exact F].
      eapply uniform_bind_ret'; [exact Uh | exact U | reflexivity].
    + right. exists e, pre, h, post. repeat split; try assumption.
      eapply uniform_bind_ret'; [exact Uh | exact U | reflexivity].
  - left. exists e. split; [reflexivity|].
    apply uniform_bind_throw. exact Uh.
Qed.

(** C1. When the history query returns more than ten hashes, the extractor
    keeps exactly the first ten in their order; after the history query its
    only commands are the diff fetches of a leading part of those ten, in
    that order (all ten unless a fetch fails, which ends the run), so no
    diff is fetched for a hash after the tenth; and when every fetch
    succeeds the result is the ten diffs in the order of the hashes. *)
Theorem extractor_fetches_first_ten
    (repo since : string) (w : world) (hashes : list string) :
  fst (getCommitHashes H repo since w) = Ret hashes ->
  (10 < length hashes)%nat ->
  let limitedHashes := slice_0_10 hashes in
  let r := getCommitDiffs H repo since w in
  length limitedHashes = 10%nat
  /\ hashes = limitedHashes ++ drop 10 hashes
  /\ exists fetched : list string,
       fetched `prefix_of` limitedHashes
       /\ snd r = add_events w
                    (log_event repo since :: List.map (show_event repo) fetched)
       /\ ((forall h, h ∈ limitedHashes ->
                     exists d, fst (getCommitDiff H repo h w) = Ret d) ->
           fetched = limitedHashes
           /\ exists diffs,
               fst r = Ret diffs
               /\ Forall2 (fun h d => fst (getCommitDiff H repo h w) = Ret d)
                    limitedHashes diffs).
Proof.
  intros Hh Hlen limitedHashes r. subst limitedHashes r.
  unfold slice_0_10 at 1 2.
  split; [rewrite length_firstn; lia|].
  split; [symmetry; apply firstn_skipn|].
  destruct (getCommitDiffs_uniform repo since w)
    as [(e & He & _) | (hs & Hhs & [(ds & U & F) | (e & pre & h & post & E & U & F & T)])].
  - rewrite Hh in He. discriminate.
  - rewrite Hh in Hhs. injection Hhs as <-.
    exists (slice_0_10 hashes). split; [reflexivity|].
    split; [now rewrite U|].
    intros _. split; [reflexivity|].
    exists ds. split; [now rewrite U | exact F].
  - rewrite Hh in Hhs. injection Hhs as <-.
    exists (pre ++ [h]). split.
    + exists post. rewrite E. now rewrite <- app_assoc.
    + split; [now rewrite U|].
      intros Hall. exfalso.
      destruct (Hall h) as [d Hd].
      * rewrite E. apply elem_of_app. right. apply elem_of_cons. now left.
      * rewrite T in Hd. discriminate.
Qed.

End WithHost.
End RunFacts.

(** ** The pipeline, path by path *)

Module GenerateFacts.
Import RunFacts.

Section WithHost.
Variable H : host.

Lemma loadConfig_world (w : world) : snd (loadConfig H w) = w.
Proof.
  unfold loadConfig. destruct (files w !! CONFIG H); [|reflexivity].
  reflexivity.
Qed.

Lemma loadConfig_no_exit (w : world) (c : Z) : fst (loadConfig H w) <> Exit c.
Proof.
  unfold loadConfig. destruct (files w !! CONFIG H); [|discriminate].
  destruct (JSON_parse H s); discriminate.
Qed.

Lemma getActiveRepoPath_world (w : world) :
  snd (getActiveRepoPath H w) = w
  /\ forall c, fst (getActiveRepoPath H w) <> Exit c.
Proof.
  unfold getActiveRepoPath, mbind, M_bind.
  pose proof (loadConfig_world w) as Hw.
  pose proof (loadConfig_no_exit w) as Hx.
  destruct (loadConfig H w) as [[cfg|e|c] w1]; cbn [fst snd] in *; subst w1.
  - destruct (activeProject cfg) as [name|]; [|split; [reflexivity|discriminate]].
    destruct (String.eqb name ""); [split; [reflexivity|discriminate]|].
    destruct (negb _); split; try reflexivity; discriminate.
  - split; [reflexivity|discriminate].
  - exfalso. now apply (Hx c).
Qed.

(** What [getActiveRepoPath] returns has a name, a truthy path and a
    folder name, none of them empty. *)
Lemma getActiveRepoPath_fields (w : world) (a : active) :
  fst (getActiveRepoPath H w) = Ret a ->
  a_name a <> "" /\ truthy (a_repo a) = true /\ a_worklogFolderName a <> "".
Proof.
  unfold getActiveRepoPath, mbind, M_bind.
  destruct (loadConfig H w) as [[cfg|e|c] w1]; cbn [fst]; try discriminate.
  destruct (activeProject cfg) as [name|]; [|discriminate].
  destruct (String.eqb_spec name ""); [discriminate|].
  destruct (truthy (get_prop (projects cfg) name)) eqn:T; [|discriminate].
  cbn [negb]. unfold mret, M_ret. cbn [fst]. intros E.
  injection E as <-. cbn [a_name a_repo a_worklogFolderName].
  split; [assumption|]. split; [assumption|].
  destruct (worklogFolderName cfg) as [f|]; [|discriminate].
  destruct (String.eqb_spec f ""); [discriminate | assumption].
Qed.

Lemma getActiveRepoPath_eq (w : world) (o : outcome active) :
  fst (getActiveRepoPath H w) = o -> getActiveRepoPath H w = (o, w).
Proof.
  intros <-. destruct (getActiveRepoPath_world w) as [Hw _].
  destruct (getActiveRepoPath H w). cbn in *. now subst.
Qed.

Lemma generate_config_error (since : string) (w : world) (e : jserror) :
  fst (getActiveRepoPath H w) = Throw e -> generate H since w = (Throw e, w).
Proof.
  intros Ha. unfold generate, mbind, M_bind.
  now rewrite (getActiveRepoPath_eq w _ Ha).
Qed.

Section AfterConfig.
Variables (since : string) (w : world) (a : active).
Hypothesis Ha : fst (getActiveRepoPath H w) = Ret a.
Variables (o : outcome (list string)) (evs : list event).
Hypothesis U : uniform (getCommitDiffs H (prop_to_string (a_repo a)) since) o evs.

Lemma generate_extract_error (e : jserror) :
  o = Throw e ->
  generate H since w
  = (Exit 1,
     add_events w
       (banner a :: evs ++
          [StdoutWrite spinner_clear; ConsoleError [message_or_error e]])).
Proof.
  intros ->. unfold generate, mbind, M_bind.
  rewrite (getActiveRepoPath_eq w _ Ha).
  unfold startSpinner, try_catch, mbind, M_bind, stopSpinner, process_exit.
  rewrite !uniform_emit. rewrite U. rewrite !uniform_emit.
  rewrite !add_events_app. reflexivity.
Qed.

Lemma generate_no_commits :
  o = Ret [] ->
  generate H since w
  = (Ret tt,
     add_events w
       (banner a :: evs ++
          [StdoutWrite spinner_clear;
           ConsoleLog [AStr "No commits found since"; AStr since]])).
Proof.
  intros ->. unfold generate, mbind, M_bind.
  rewrite (getActiveRepoPath_eq w _ Ha).
  unfold startSpinner, try_catch, mbind, M_bind, stopSpinner, process_exit.
  rewrite !uniform_emit. rewrite U. rewrite !uniform_emit.
  rewrite !add_events_app. reflexivity.
Qed.

Lemma message_or_error_exit (code : option Z) :
  message_or_error (Error ("gemini exited code " +:+ exit_code_string code))
  = AStr ("gemini exited code " +:+ exit_code_string code).
Proof. reflexivity. Qed.

Lemma generate_backend_failure (diffs : list string) (code : option Z)
    (out : string) :
  o = Ret diffs -> diffs <> [] ->
  gemini H (buildPromptFromDiffs diffs) = (code, out) ->
  code <> Some 0 ->
  generate H since w
  = (Exit 1,
     add_events w
       (banner a :: evs ++
          [spawn_event (buildPromptFromDiffs diffs);
           StdoutWrite spinner_clear;
           ConsoleError
             [AStr ("gemini exited code " +:+ exit_code_string code)]])).
Proof.
  intros -> Hne Hg Hc. unfold generate, mbind, M_bind.
  rewrite (getActiveRepoPath_eq w _ Ha).
  unfold startSpinner, try_catch, mbind, M_bind, stopSpinner, process_exit.
  rewrite !uniform_emit. rewrite U.
  destruct diffs as [|d ds]; [congruence|].
  unfold callGemini, mbind, M_bind. rewrite !uniform_emit. rewrite Hg.
  rewrite <- message_or_error_exit.
  destruct code as [[|p|p]|]; try congruence;
    unfold throw; rewrite !uniform_emit, !add_events_app; reflexivity.
Qed.

Lemma generate_success (diffs : list string) (out repo : string) :
  o = Ret diffs -> diffs <> [] ->
  gemini H (buildPromptFromDiffs diffs) = (Some 0, out) ->
  a_repo a = PString repo ->
  let outDir := Path.join [repo; a_worklogFolderName a] in
  let outPath := Path.join [outDir; out_date H +:+ ".md"] in
  generate H since w
  = (Ret tt,
     {| files := <[outPath := report_file (out_date H) out]> (files w);
        trace := trace w ++
          banner a :: evs ++
            [spawn_event (buildPromptFromDiffs diffs);
             StdoutWrite spinner_clear;
             Mkdir outDir;
             WriteFile outPath (report_file (out_date H) out);
             ConsoleLog [AStr "Saved"; AStr outPath]] |}).
Proof.
  intros -> Hne Hg Hr outDir outPath. unfold generate, mbind, M_bind.
  rewrite (getActiveRepoPath_eq w _ Ha).
  unfold startSpinner, try_catch, mbind, M_bind, stopSpinner, process_exit.
  rewrite !uniform_emit. rewrite U.
  destruct diffs as [|d ds]; [congruence|].
  unfold callGemini, mbind, M_bind. rewrite !uniform_emit. rewrite Hg.
  unfold mret, M_ret. rewrite !uniform_emit.
  rewrite Hr. unfold join_repo, mret, M_ret, mkdirSync, writeFileSync.
  rewrite !uniform_emit. unfold emit.
  rewrite !add_events_app. unfold add_events. cbn [files trace].
  rewrite <- !app_assoc. reflexivity.
Qed.

Lemma generate_repo_not_a_path (diffs : list string) (out : string) :
  o = Ret diffs -> diffs <> [] ->
  gemini H (buildPromptFromDiffs diffs) = (Some 0, out) ->
  (forall repo, a_repo a <> PString repo) ->
  exists msg,
  generate H since w
  = (Exit 1,
     add_events w
       (banner a :: evs ++
          [spawn_event (buildPromptFromDiffs diffs);
           StdoutWrite spinner_clear;
           StdoutWrite spinner_clear;
           ConsoleError [AStr msg]])).
Proof.
  intros -> Hne Hg Hr. eexists. unfold generate, mbind, M_bind.
  rewrite (getActiveRepoPath_eq w _ Ha).
  unfold startSpinner, try_catch, mbind, M_bind, stopSpinner, process_exit.
  rewrite !uniform_emit. rewrite U.
  destruct diffs as [|d ds]; [congruence|].
  unfold callGemini, mbind, M_bind. rewrite !uniform_emit. rewrite Hg.
  unfold mret, M_ret. rewrite !uniform_emit.
  unfold join_repo, throw.
  destruct (a_repo a) as [repo| |]; [now destruct (Hr repo)| |];
    rewrite !uniform_emit, !add_events_app; reflexivity.
Qed.

Lemma generate_extract_exit (c : Z) :
  o = Exit c ->
  generate H since w = (Exit c, add_events w (banner a :: evs)).
Proof.
  intros ->. unfold generate, mbind, M_bind.
  rewrite (getActiveRepoPath_eq w _ Ha).
  unfold startSpinner, try_catch, mbind, M_bind.
  rewrite !uniform_emit. rewrite U.
  rewrite !add_events_app. reflexivity.
Qed.
End AfterConfig.

(** The commands of the extractor are repository queries only. *)
Lemma getCommitDiffs_events (repo since : string) (w : world) :
  exists evs,
    uniform (getCommitDiffs H repo since)
      (fst (getCommitDiffs H repo since w)) evs
    /\ Forall (fun e => is_ExecCmd e = true) evs.
Proof.
  assert (Hshow : forall l,
             Forall (fun e => is_ExecCmd e = true) (List.map (show_event repo) l)).
  { intros l. induction l; constructor; [reflexivity | assumption]. }
  destruct (getCommitDiffs_uniform H repo since w)
    as [(e & _ & U) | (hs & _ & [(ds & U & _) | (e & pre & h & post & _ & U & _)])];
    eexists; (split; [rewrite (uniform_fst _ _ _ w U); exact U|]).
  - repeat constructor.
  - constructor; [reflexivity | apply Hshow].
  - constructor; [reflexivity | apply Hshow].
Qed.

Lemma getCommitDiffs_no_hashes (repo since : string) (w : world) :
  fst (getCommitHashes H repo since w) = Ret [] ->
  uniform (getCommitDiffs H repo since) (Ret []) [log_event repo since].
Proof.
  intros Hh.
  destruct (getCommitDiffs_uniform H repo since w)
    as [(e & He & _) | (hs & Hhs & [(ds & U & F) | (e & pre & h & post & E & _)])].
  - rewrite Hh in He. discriminate.
  - rewrite Hh in Hhs. injection Hhs as <-.
    unfold slice_0_10 in *. cbn in F, U. inversion F. subst. exact U.
  - rewrite Hh in Hhs. injection Hhs as <-.
    unfold slice_0_10 in E. cbn in E. destruct pre; discriminate.
Qed.

Lemma exec_too_large (cmd : string) (mb : Z) :
  too_large mb (p_stdout (shell H cmd)) = true ->
  exec_callback_args H cmd mb
  = (Some (maxBuffer_error "stdout"),
     substring 0 (Z.to_nat mb) (p_stdout (shell H cmd))).
Proof. intros Ht. unfold exec_callback_args. now rewrite Ht. Qed.

Lemma getCommitDiff_too_large (repo h : string) :
  too_large diff_maxBuffer (p_stdout (shell H (git_show_cmd repo h))) = true ->
  uniform (getCommitDiff H repo h) (Throw (maxBuffer_error "stdout"))
    [show_event repo h].
Proof.
  intros Ht. pose proof (uniform_getCommitDiff H repo h) as U.
  now rewrite (exec_too_large _ _ Ht) in U.
Qed.

Lemma getCommitHashes_too_large (repo since : string) :
  too_large default_maxBuffer (p_stdout (shell H (git_log_cmd repo since)))
  = true ->
  uniform (getCommitHashes H repo since) (Throw (maxBuffer_error "stdout"))
    [log_event repo since].
Proof.
  intros Ht. pose proof (uniform_getCommitHashes H repo since) as U.
  now rewrite (exec_too_large _ _ Ht) in U.
Qed.

(** The loop stops at the first fetch that fails. *)
Lemma fetch_loop_stops (repo : string) (w0 : world) (h : string)
    (post : list string) (e : jserror) (pre : list string) :
  forall acc,
    Forall (fun h' => exists d, fst (getCommitDiff H repo h' w0) = Ret d) pre ->
    uniform (getCommitDiff H repo h) (Throw e) [show_event repo h] ->
    uniform (fetch_loop H repo (pre ++ h :: post) acc) (Throw e)
      (List.map (show_event repo) (pre ++ [h])).
Proof.
  induction pre as [|p pre IH]; intros acc Hpre Uh.
  - apply uniform_bind_throw. exact Uh.
  - inversion Hpre as [|? ? [d Hd] Hrest]; subst.
    pose proof (uniform_getCommitDiff H repo p) as Up.
    rewrite (uniform_fst _ _ _ w0 Up) in Hd. rewrite Hd in Up.
    eapply uniform_bind_ret'; [exact Up | apply IH; assumption | reflexivity].
Qed.

Lemma getCommitDiffs_stops (repo since : string) (w0 : world)
    (hashes pre : list string) (h : string) (post : list string) (e : jserror) :
  fst (getCommitHashes H repo since w0) = Ret hashes ->
  slice_0_10 hashes = pre ++ h :: post ->
  Forall (fun h' => exists d, fst (getCommitDiff H repo h' w0) = Ret d) pre ->
  uniform (getCommitDiff H repo h) (Throw e) [show_event repo h] ->
  uniform (getCommitDiffs H repo since) (Throw e)
    (log_event repo since :: List.map (show_event repo) (pre ++ [h])).
Proof.
  intros Hh E Hpre Uh.
  pose proof (uniform_getCommitHashes H repo since) as U.
  rewrite (uniform_fst _ _ _ w0 U) in Hh. rewrite Hh in U.
  unfold getCommitDiffs.
  eapply uniform_bind_ret'; [exact U | | reflexivity].
  rewrite E. now apply fetch_loop_stops with (w0 := w0).
Qed.

Lemma old_write (w w' : world) (new : list event) (e : event) :
  trace w' = trace w ++ new ->
  Forall (fun x => is_WriteFile x = false) new ->
  is_WriteFile e = true ->
  e ∈ trace w' -> e ∈ trace w.
Proof.
  intros -> Hnew He Hin. apply elem_of_app in Hin as [Hin|Hin]; [assumption|].
  rewrite Forall_forall in Hnew. apply Hnew in Hin. congruence.
Qed.

Lemma exec_not_write (evs : list event) :
  Forall (fun e => is_ExecCmd e = true) evs ->
  Forall (fun e => is_WriteFile e = false) evs.
Proof.
  intros F. eapply Forall_impl; [exact F|].
  intros [] He; try reflexivity; discriminate.
Qed.

(** A report is written only in a run whose back end exited with code 0. *)
Lemma write_needs_backend_success (since : string) (w : world) (e : event) :
  is_WriteFile e = true ->
  e ∈ trace (snd (generate H since w)) -> e ∉ trace w ->
  exists a diffs out,
    fst (getActiveRepoPath H w) = Ret a
    /\ fst (getCommitDiffs H (prop_to_string (a_repo a)) since w) = Ret diffs
    /\ gemini H (buildPromptFromDiffs diffs) = (Some 0, out)
    /\ spawn_event (buildPromptFromDiffs diffs)
         ∈ trace (snd (generate H since w)).
Proof.
  intros He Hin Hold.
  destruct (fst (getActiveRepoPath H w)) as [a|err|c] eqn:Ha.
  2: { rewrite (generate_config_error since w err Ha) in Hin. contradiction. }
  2: { now destruct (proj2 (getActiveRepoPath_world w) c). }
  destruct (getCommitDiffs_events (prop_to_string (a_repo a)) since w)
    as (evs & U & Fe).
  apply exec_not_write in Fe.
  assert (Hcontra : forall (o' : outcome unit) new,
             generate H since w = (o', add_events w new) ->
             Forall (fun x => is_WriteFile x = false) new -> False).
  { intros o' new Hg Hnew. apply Hold.
    apply (old_write w (snd (generate H since w)) new e); auto.
    now rewrite Hg. }
  destruct (fst (getCommitDiffs H (prop_to_string (a_repo a)) since w))
    as [diffs|err|c] eqn:Ho.
  - destruct diffs as [|d ds].
    + exfalso.
      apply (Hcontra _ _ (generate_no_commits since w a Ha _ evs U eq_refl)).
      constructor; [reflexivity|]. apply Forall_app. split; [assumption|].
      repeat constructor.
    + destruct (gemini H (buildPromptFromDiffs (d :: ds))) as [code out] eqn:Hg.
      destruct (decide (code = Some 0)) as [->|Hc].
      * assert (Hcases : (exists repo, a_repo a = PString repo)
                         \/ (forall repo, a_repo a <> PString repo)).
        { destruct (a_repo a); [left; eauto | right; discriminate ..]. }
        destruct Hcases as [[repo Hr] | Hr].
        -- exists a, (d :: ds), out. split; [reflexivity|].
           split; [exact Ho|]. split; [exact Hg|].
           rewrite (generate_success since w a Ha _ evs U (d :: ds) out repo
                      eq_refl ltac:(discriminate) Hg Hr).
           cbn [snd trace]. apply elem_of_app. right.
           apply elem_of_cons. right. apply elem_of_app. right.
           apply elem_of_cons. now left.
        -- exfalso.
           destruct (generate_repo_not_a_path since w a Ha _ evs U (d :: ds) out
                       eq_refl ltac:(discriminate) Hg Hr) as [msg Hm].
           apply (Hcontra _ _ Hm).
           constructor; [reflexivity|]. apply Forall_app. split; [assumption|].
           repeat constructor.
      * exfalso.
        apply (Hcontra _ _
                 (generate_backend_failure since w a Ha _ evs U (d :: ds) code out
                    eq_refl ltac:(discriminate) Hg Hc)).
        constructor; [reflexivity|]. apply Forall_app. split; [assumption|].
        repeat constructor.
  - exfalso.
    apply (Hcontra _ _ (generate_extract_error since w a Ha _ evs U err eq_refl)).
    constructor; [reflexivity|]. apply Forall_app. split; [assumption|].
    repeat constructor.
  - exfalso.
    apply (Hcontra _ _ (generate_extract_exit since w a Ha _ evs U c eq_refl)).
    constructor; [reflexivity | assumption].
Qed.

(** C3. When the history query returns no hash, the run only starts the
    spinner, runs the history query, clears the spinner and logs "No commits
    found since" followed by the window it was given; it fetches no diff,
    starts no back end, writes no file and ends normally, and so does the
    command-line invocation around it. *)
Theorem empty_window_reports_and_stops
    (since : string) (w : world) (a : active) :
  fst (getActiveRepoPath H w) = Ret a ->
  fst (getCommitHashes H (prop_to_string (a_repo a)) since w) = Ret [] ->
  generate H since w
  = (Ret tt,
     add_events w
       [banner a;
        log_event (prop_to_string (a_repo a)) since;
        StdoutWrite spinner_clear;
        ConsoleLog [AStr "No commits found since"; AStr since]])
  /\ files (snd (generate H since w)) = files w
  /\ exit_status (generate H since w) = 0
  /\ forall argv : list string,
       parseSinceDate (LocalTZA H) (legacy_parse H) (now_resolve H)
         (Some (raw_since ("generate" :: argv))) = Ok since ->
       main H ("generate" :: argv) w = generate H since w
       /\ exit_status (main H ("generate" :: argv) w) = 0.
Proof.
  intros Ha Hh.
  pose proof (getCommitDiffs_no_hashes _ _ w Hh) as U.
  pose proof (generate_no_commits since w a Ha _ _ U eq_refl) as Hg.
  cbn [app] in Hg.
  split; [exact Hg|]. split; [now rewrite Hg|]. split; [now rewrite Hg|].
  intros argv Hp.
  assert (Hm : main H ("generate" :: argv) w = generate H since w).
  { unfold main. cbn [lookup list_lookup].
    destruct (decide (Some "generate" = Some "set-active")) as [E|_];
      [discriminate E|].
    destruct (decide (Some "generate" = Some "generate")) as [_|N];
      [|now destruct N].
    unfold try_catch, mbind, M_bind. rewrite Hp. unfold settle.
    cbn [to_outcome]. now rewrite Hg. }
  split; [exact Hm|]. now rewrite Hm, Hg.
Qed.

(** C2. When the back end exits with a code other than 0, the run ends by
    [process.exit(1)] after printing "gemini exited code" and that code;
    it has made no directory and written no file, so the files are what
    they were.  And in any run, a file is written only after a back end
    call that exited with code 0. *)
Theorem backend_failure_writes_nothing
    (since : string) (w : world) (a : active) (diffs : list string)
    (code : Z) (out : string) :
  fst (getActiveRepoPath H w) = Ret a ->
  fst (getCommitDiffs H (prop_to_string (a_repo a)) since w) = Ret diffs ->
  diffs <> [] ->
  gemini H (buildPromptFromDiffs diffs) = (Some code, out) ->
  code <> 0 ->
  let r := generate H since w in
  fst r = Exit 1
  /\ exit_status r = 1
  /\ files (snd r) = files w
  /\ (exists evs,
         Forall (fun e => is_ExecCmd e = true) evs
         /\ trace (snd r)
            = trace w ++
                banner a :: evs ++
                  [spawn_event (buildPromptFromDiffs diffs);
                   StdoutWrite spinner_clear;
                   ConsoleError
                     [AStr ("gemini exited code " +:+ JSString.of_Z code)]])
  /\ forall (since' : string) (w' : world) (e : event),
       is_WriteFile e = true ->
       e ∈ trace (snd (generate H since' w')) -> e ∉ trace w' ->
       exists prompt out',
         gemini H prompt = (Some 0, out')
         /\ spawn_event prompt ∈ trace (snd (generate H since' w')).
Proof.
  intros Ha Hd Hne Hg Hc r. subst r.
  destruct (getCommitDiffs_events (prop_to_string (a_repo a)) since w)
    as (evs & U & Fe).
  assert (Hc' : Some code <> Some 0) by congruence.
  pose proof (generate_backend_failure since w a Ha _ evs U diffs (Some code)
                out Hd Hne Hg Hc') as Hr.
  rewrite Hr. cbn [fst snd exit_status exit_code_string].
  repeat split; try reflexivity.
  - exists evs. split; [exact Fe | reflexivity].
  - intros since' w' e He Hin Hold.
    destruct (write_needs_backend_success since' w' e He Hin Hold)
      as (a' & diffs' & out' & _ & _ & Hg' & Hs).
    eauto.
Qed.

(** C8. The buffer for a diff is 20 MiB.  When the output of the history
    query is longer than its buffer, or the output of a diff fetch is
    longer than the diff buffer (the earlier fetches having succeeded),
    the promise is rejected with the error of the exceeded buffer, although
    the callback is handed the output cut at the limit; the run prints that
    error and ends by [process.exit(1)] without starting the back end or
    writing a file. *)
Theorem oversized_capture_fails_the_run
    (since : string) (w : world) (a : active) :
  fst (getActiveRepoPath H w) = Ret a ->
  let repo := prop_to_string (a_repo a) in
  let failed (fetches : list event) : outcome unit * world :=
    (Exit 1,
     add_events w
       (banner a :: fetches ++
          [StdoutWrite spinner_clear;
           ConsoleError [AStr "stdout maxBuffer length exceeded"]])) in
  diff_maxBuffer = 20 * 1024 * 1024
  /\ (too_large default_maxBuffer (p_stdout (shell H (git_log_cmd repo since)))
      = true ->
      fst (getCommitHashes H repo since w) = Throw (maxBuffer_error "stdout")
      /\ generate H since w = failed [log_event repo since])
  /\ (forall (hashes pre : list string) (h : string) (post : list string),
         fst (getCommitHashes H repo since w) = Ret hashes ->
         slice_0_10 hashes = pre ++ h :: post ->
         Forall (fun h' => exists d, fst (getCommitDiff H repo h' w) = Ret d)
           pre ->
         too_large diff_maxBuffer (p_stdout (shell H (git_show_cmd repo h)))
         = true ->
         fst (getCommitDiff H repo h w) = Throw (maxBuffer_error "stdout")
         /\ generate H since w
            = failed (log_event repo since
                        :: List.map (show_event repo) (pre ++ [h]))).
Proof.
  intros Ha repo failed. subst repo failed. cbv beta.
  split; [reflexivity|]. split.
  - intros Ht.
    pose proof (getCommitHashes_too_large _ _ Ht) as Uh.
    split; [now rewrite Uh|].
    assert (U : uniform (getCommitDiffs H (prop_to_string (a_repo a)) since)
                  (Throw (maxBuffer_error "stdout"))
                  [log_event (prop_to_string (a_repo a)) since]).
    { unfold getCommitDiffs. apply uniform_bind_throw. exact Uh. }
    exact (generate_extract_error since w a Ha _ _ U _ eq_refl).
  - intros hashes pre h post Hh E Hpre Ht.
    pose proof (getCommitDiff_too_large _ _ Ht) as Ud.
    split; [now rewrite Ud|].
    pose proof (getCommitDiffs_stops _ _ w _ _ _ _ _ Hh E Hpre Ud) as U.
    exact (generate_extract_error since w a Ha _ _ U _ eq_refl).
Qed.

(** C4. After a successful back end call the run makes the output
    directory and writes one file: its path is the repository path, the
    output folder name and the date with the extension .md put together
    with slashes, in the normal form [path.join] gives it (for a repository
    path in normal form and a plain folder name that is the three put
    together with slashes as they are); its content
    is the heading with the date, an empty line, the trimmed report and a
    line feed.  Whatever the file held before is replaced, and no other file
    changes.  The date is the UTC date of the instant of writing as
    YYYY-MM-DD. *)
Theorem report_written_under_dated_name
    (since : string) (w : world) (a : active) (repo : string)
    (diffs : list string) (out : string) :
  fst (getActiveRepoPath H w) = Ret a ->
  a_repo a = PString repo ->
  fst (getCommitDiffs H repo since w) = Ret diffs ->
  diffs <> [] ->
  gemini H (buildPromptFromDiffs diffs) = (Some 0, out) ->
  let date := out_date H in
  let folder := a_worklogFolderName a in
  let outDir := Path.join [repo; folder] in
  let outPath := Path.join [outDir; date +:+ ".md"] in
  let content :=
    "# Work Log — " +:+ date +:+ nl +:+ nl +:+ JSString.trim out +:+ nl in
  let r := generate H since w in
  fst r = Ret tt
  /\ files (snd r) = <[outPath := content]> (files w)
  /\ files (snd r) !! outPath = Some content
  /\ (forall p, p <> outPath -> files (snd r) !! p = files w !! p)
  /\ (exists before,
         Forall (fun e => is_WriteFile e = false) before
         /\ trace (snd r)
            = trace w ++ before ++
                [Mkdir outDir; WriteFile outPath content;
                 ConsoleLog [AStr "Saved"; AStr outPath]])
  /\ outPath
     = Path.normalize (repo +:+ "/" +:+ folder +:+ "/" +:+ date +:+ ".md")
  /\ (plain_absolute repo = true -> plain_segment folder = true ->
      outPath = repo +:+ "/" +:+ folder +:+ "/" +:+ date +:+ ".md")
  /\ (0 <= now_write H < 253402300800000 ->
      date
      = JSDate.pad 4 (JSDate.YearFromTime (now_write H)) +:+ "-"
        +:+ JSDate.pad 2 (JSDate.MonthFromTime (now_write H) + 1) +:+ "-"
        +:+ JSDate.pad 2 (JSDate.DateFromTime (now_write H))).
Proof.
  intros Ha Hr Hd Hne Hg date folder outDir outPath content r.
  destruct (getCommitDiffs_events (prop_to_string (a_repo a)) since w)
    as (evs & U & Fe).
  rewrite Hr in U at 2. cbn [prop_to_string] in U. rewrite Hd in U.
  pose proof (generate_success since w a Ha _ evs U diffs out repo eq_refl Hne
                Hg Hr) as Hgen.
  cbv zeta in Hgen. fold date folder outDir outPath in Hgen.
  change (report_file date out) with content in Hgen.
  subst r. rewrite Hgen. cbn [fst snd files trace].
  split; [reflexivity|]. split; [reflexivity|].
  split; [apply lookup_insert_eq|].
  split; [intros p Hp; now apply lookup_insert_ne|].
  split.
  - exists (banner a :: evs ++
              [spawn_event (buildPromptFromDiffs diffs);
               StdoutWrite spinner_clear]).
    split.
    + constructor; [reflexivity|]. apply Forall_app. split.
      * now apply exec_not_write.
      * repeat constructor.
    + f_equal. cbn [app]. f_equal. now rewrite <- app_assoc.
  - split.
    { subst outPath outDir.
      destruct (getActiveRepoPath_fields w a Ha) as (_ & Ht & Hfolder).
      rewrite Hr in Ht. cbn [truthy] in Ht. apply negb_true_iff in Ht.
      apply String.eqb_neq in Ht.
      apply PathFacts.join_join_file;
        [assumption | assumption | apply DateNameFacts.report_name_plain]. }
    split.
    + intros Hp Hf. subst outPath outDir.
      destruct (PathFacts.join_plain repo folder Hp Hf) as [E1 P1].
      destruct (PathFacts.join_plain _ _ P1 (DateNameFacts.report_name_plain H))
        as [E2 _].
      fold date in E2. rewrite E2, E1.
      now rewrite !PromptFacts.sapp_assoc.
    + apply DateNameFacts.out_date_form.
Qed.

(** A configuration failure reaches the top-level handler, which prints it
    and lets the script run to its end. *)
Lemma config_error_is_only_logged
    (argv : list string) (w : world) (since : string) (e : jserror) :
  parseSinceDate (LocalTZA H) (legacy_parse H) (now_resolve H)
    (Some (raw_since ("generate" :: argv))) = Ok since ->
  fst (getActiveRepoPath H w) = Throw e ->
  main H ("generate" :: argv) w
  = (Ret tt, add_events w [ConsoleError [message_or_error e]])
  /\ exit_status (main H ("generate" :: argv) w) = 0.
Proof.
  intros Hp Ha.
  assert (Hm : main H ("generate" :: argv) w
               = (Ret tt, add_events w [ConsoleError [message_or_error e]])).
  { unfold main. cbn [lookup list_lookup].
    destruct (decide (Some "generate" = Some "set-active")) as [E|_];
      [discriminate E|].
    destruct (decide (Some "generate" = Some "generate")) as [_|N];
      [|now destruct N].
    unfold try_catch, mbind, M_bind. rewrite Hp. unfold settle.
    cbn [to_outcome]. rewrite (generate_config_error since w e Ha).
    reflexivity. }
  split; [exact Hm | now rewrite Hm].
Qed.

(** A name that is neither in the mapping nor inherited is rejected before
    anything is written. *)
Lemma unknown_project_is_rejected
    (name : option string) (w : world) (text : string) (cfg : config) :
  files w !! CONFIG H = Some text ->
  JSON_parse H text = Ok cfg ->
  projects cfg !! opt_to_string name = None ->
  existsb (String.eqb (opt_to_string name)) Object_prototype_keys = false ->
  setActiveProject H name w
  = (Throw (Error ("Unknown project: " +:+ opt_to_string name)), w).
Proof.
  intros Hf Hp Hn Hi.
  unfold setActiveProject, mbind, M_bind, loadConfig. rewrite Hf, Hp.
  cbn [to_outcome]. unfold get_prop. rewrite Hn, Hi. reflexivity.
Qed.

(** A name that is not in the mapping but is inherited from
    [Object.prototype] passes the check: it is made the active project and
    the registry is saved. *)
Lemma inherited_name_is_accepted
    (name : string) (w : world) (text : string) (cfg : config) :
  files w !! CONFIG H = Some text ->
  JSON_parse H text = Ok cfg ->
  projects cfg !! name = None ->
  existsb (String.eqb name) Object_prototype_keys = true ->
  let cfg' := {| projects := projects cfg;
                 activeProject := Some name;
                 worklogFolderName := worklogFolderName cfg |} in
  setActiveProject H (Some name) w
  = (Ret tt,
     {| files := <[CONFIG H := JSON_stringify H cfg']> (files w);
        trace := trace w ++
          [Mkdir (Path.dirname (CONFIG H));
           WriteFile (CONFIG H) (JSON_stringify H cfg');
           ConsoleLog [AStr "activeProject set to"; AOpt (Some name)]] |}).
Proof.
  intros Hf Hp Hn Hi cfg'.
  unfold setActiveProject, mbind, M_bind, loadConfig. rewrite Hf, Hp.
  cbn [to_outcome opt_to_string]. unfold get_prop. rewrite Hn, Hi. cbn [truthy negb].
  unfold saveConfig, mkdirSync, writeFileSync, mbind, M_bind, emit, add_events.
  cbn [files trace]. subst cfg'. now rewrite <- !app_assoc.
Qed.

End WithHost.
End GenerateFacts.

(** ** The scenarios, on the sample host *)

Module Scenarios.
Import Sample RunFacts GenerateFacts.

Lemma length_repeat_char (n : nat) (c : ascii) :
  String.length (repeat_char n c) = n.
Proof. induction n as [|n IH]; cbn; [reflexivity | now rewrite IH]. Qed.

Lemma huge_diff_too_large (cmd : string) :
  too_large diff_maxBuffer (huge_diff cmd) = true.
Proof.
  unfold too_large, huge_diff. rewrite length_repeat_char.
  rewrite Z2Nat.id by (unfold diff_maxBuffer; lia).
  apply Z.ltb_lt. lia.
Qed.

Lemma extractor_fetches_first_ten_witness :
  length (slice_0_10 (hashes 12)) = 10%nat
  /\ snd (getCommitDiffs host12 "/repo" since world0)
     = add_events world0
         (log_event "/repo" since
            :: List.map (show_event "/repo") (slice_0_10 (hashes 12))).
Proof.
  destruct (extractor_fetches_first_ten host12 "/repo" since world0 (hashes 12))
    as (L & _ & fetched & _ & _ & All).
  - vm_compute. reflexivity.
  - vm_compute. lia.
  - split; [exact L|]. vm_compute. reflexivity.
Defined.

Lemma backend_failure_writes_nothing_witness :
  fst (generate host_failing since world0) = Exit 1
  /\ files (snd (generate host_failing since world0)) = files world0.
Proof.
  destruct (backend_failure_writes_nothing host_failing since world0 active_p
              (diffs 3) 1 "")
    as (A & _ & B & _).
  - vm_compute. reflexivity.
  - vm_compute. reflexivity.
  - discriminate.
  - reflexivity.
  - lia.
  - split; assumption.
Defined.

Lemma empty_window_reports_and_stops_witness :
  generate host_empty since world0
  = (Ret tt,
     add_events world0
       [banner active_p;
        log_event "/repo" since;
        StdoutWrite spinner_clear;
        ConsoleLog [AStr "No commits found since"; AStr since]]).
Proof.
  refine (proj1 (empty_window_reports_and_stops host_empty since world0
                   active_p _ _)).
  - vm_compute. reflexivity.
  - vm_compute. reflexivity.
Defined.

Lemma report_written_under_dated_name_witness :
  files (snd (generate host3 since world0)) !! "/repo/worklogs/2025-08-15.md"
  = Some ("# Work Log — 2025-08-15" +:+ nl +:+ nl +:+ "the report" +:+ nl).
Proof.
  destruct (report_written_under_dated_name host3 since world0 active_p "/repo"
              (diffs 3) ("  the report " +:+ nl))
    as (_ & _ & F & _).
  - vm_compute. reflexivity.
  - reflexivity.
  - vm_compute. reflexivity.
  - discriminate.
  - reflexivity.
  - exact F.
Defined.

Lemma oversized_capture_fails_the_run_witness :
  generate host_huge since world0
  = (Exit 1,
     add_events world0
       [banner active_p;
        log_event "/repo" since;
        show_event "/repo" (hash 1);
        StdoutWrite spinner_clear;
        ConsoleError [AStr "stdout maxBuffer length exceeded"]]).
Proof.
  destruct (oversized_capture_fails_the_run host_huge since world0 active_p)
    as (_ & _ & Big).
  - vm_compute. reflexivity.
  - destruct (Big (hashes 1) [] (hash 1) []) as [_ G].
    + vm_compute. reflexivity.
    + reflexivity.
    + constructor.
    + apply huge_diff_too_large.
    + exact G.
Defined.

(** C5, where the code departs from it.  With no active project in the
    registry, or with an active project that has no path, the command
    prints the reason on the error stream and then runs to its end, so the
    process ends with status 0: the configuration is read before the [try]
    of [generate], and the handler at the top level only prints.  A failure
    inside the [try] (here the back end exiting with code 1) ends with
    status 1. *)
Theorem config_failure_ends_with_status_zero :
  main host3 ["generate"] (world_with "registry without activeProject")
  = (Ret tt,
     add_events (world_with "registry without activeProject")
       [ConsoleError [AStr "No activeProject in config"]])
  /\ exit_status
       (main host3 ["generate"] (world_with "registry without activeProject"))
     = 0
  /\ main host3 ["generate"] (world_with "registry with activeProject q")
     = (Ret tt,
        add_events (world_with "registry with activeProject q")
          [ConsoleError [AStr "Project path missing for q"]])
  /\ exit_status
       (main host3 ["generate"] (world_with "registry with activeProject q"))
     = 0
  /\ exit_status (main host_failing ["generate"] world0) = 1.
Proof. repeat split; vm_compute; reflexivity. Qed.

(** C10, where the code departs from it.  The registry of the sample maps
    only the name p, yet activating the name constructor does not fail: the
    lookup finds the member every object inherits, the name is stored as
    the active project and the registry file is rewritten. *)
Theorem inherited_name_is_activated :
  projects registry !! "constructor" = None
  /\ setActiveProject host3 (Some "constructor") world0
     = (Ret tt,
        {| files :=
             <[config_path := "registry with activeProject constructor"]>
               (files world0);
           trace :=
             [Mkdir "/home/dev/.worklogs";
              WriteFile config_path "registry with activeProject constructor";
              ConsoleLog [AStr "activeProject set to";
                          AOpt (Some "constructor")]] |})
  /\ files (snd (setActiveProject host3 (Some "constructor") world0))
       !! config_path
     <> files world0 !! config_path
  /\ setActiveProject host3 (Some "q") world0
     = (Throw (Error "Unknown project: q"), world0).
Proof.
  split; [vm_compute; reflexivity|].
  split; [vm_compute; reflexivity|].
  split; [vm_compute; discriminate|].
  vm_compute. reflexivity.
Qed.

(** Scenario A of the specification: three commits in the window. *)
Example three_commits :
  let r := main host3 ["generate"] world0 in
  fst r = Ret tt
  /\ List.filter is_ExecCmd (trace (snd r))
     = log_event "/repo" since :: List.map (show_event "/repo") (hashes 3)
  /\ map_to_list (files (snd r))
     = [("/repo/worklogs/2025-08-15.md",
         "# Work Log — 2025-08-15" +:+ nl +:+ nl +:+ "the report" +:+ nl);
        (config_path, "registry")].
Proof. cbv zeta. repeat split; vm_compute; reflexivity. Qed.

(** A second run on the same date leaves only its own report. *)
Example second_run_replaces_report :
  let h1 := host_with 3 small_diff (Some 0, "first report") in
  let h2 := host_with 3 small_diff (Some 0, "second report") in
  let w1 := snd (main h1 ["generate"] (world_with "registry")) in
  let w2 := snd (main h2 ["generate"] w1) in
  files w1 !! "/repo/worklogs/2025-08-15.md"
  = Some ("# Work Log — 2025-08-15" +:+ nl +:+ nl +:+ "first report" +:+ nl)
  /\ files w2 !! "/repo/worklogs/2025-08-15.md"
     = Some ("# Work Log — 2025-08-15" +:+ nl +:+ nl +:+ "second report" +:+ nl).
Proof. cbv zeta. split; vm_compute; reflexivity. Qed.

(** Twelve commits in the window: ten diffs are fetched. *)
Example twelve_commits :
  let r := main host12 ["generate"; "yesterday"] world0 in
  length (List.filter is_ExecCmd (trace (snd r))) = 11%nat.
Proof. vm_compute. reflexivity. Qed.

End Scenarios.

(** ** More on the Time Window Resolver *)

Module ResolverExtras.
Import JSDate DateFacts ResolverFacts.

(** [new Date(y, m, d)] from the local fields of [t] is local midnight of
    that day whenever the local year is not one of 0 to 99, which the
    constructor reads as 1900 to 1999. *)
Lemma midnight_of_year (tz : Z -> bool -> Z) (t delta : Z) :
  (forall t b, - msPerDay <= tz t b <= msPerDay) ->
  getFullYear tz t < 0 \/ 99 < getFullYear tz t ->
  - (maxTime - 4 * msPerDay) <= t <= maxTime - 2 * msPerDay ->
  -1 <= delta <= 0 ->
  midnight_of tz t delta = Some (local_midnight tz t delta).
Proof.
  intros Hz Hy Ht Hd.
  unfold midnight_of, newDate3, local_midnight.
  unfold getFullYear in Hy.
  replace ((0 <=? getFullYear tz t) && (getFullYear tz t <=? 99)) with false.
  2: { symmetry. unfold getFullYear. destruct Hy.
       - apply andb_false_iff. left. apply Z.leb_gt. lia.
       - apply andb_false_iff. right. apply Z.leb_gt. lia. }
  unfold getFullYear, getMonth, getDate. rewrite MakeDay_fields.
  unfold MakeDate, MakeTime. rewrite !Z.mul_0_l, !Z.add_0_r.
  unfold TimeClip.
  set (m := (Day (LocalTime tz t) + delta) * msPerDay).
  pose proof (Hz t true) as Hz1. pose proof (Hz m false) as Hz2.
  assert (Hm : t - 3 * msPerDay <= m <= t + msPerDay).
  { subst m. unfold Day, LocalTime, msPerDay in *.
    Z.div_mod_to_equations. lia. }
  destruct (Z.leb_spec (Z.abs (UTC tz m)) maxTime) as [|Hbad]; [reflexivity|].
  exfalso. unfold UTC, maxTime, msPerDay in *. lia.
Qed.

(** In a zone with a constant offset, local midnight of the day of [t] is
    the last instant at or before [t] at which the local clock shows
    00:00:00.000. *)
Lemma local_midnight_is_start_of_day (off t : Z) :
  let m := local_midnight (fixed_zone off) t 0 in
  TimeWithinDay (m + off) = 0 /\ m <= t < m + msPerDay.
Proof.
  cbv zeta. destruct (local_midnight_fixed off t 0) as [Hm _].
  unfold LocalTime, fixed_zone in Hm. split; [exact Hm|].
  unfold local_midnight, LocalTime, UTC, fixed_zone, Day, msPerDay.
  Z.div_mod_to_equations. lia.
Qed.

(** X1. With no token, the empty token or "today" in any letter case, in a
    zone with a constant offset and a clock after 1970, [parseSinceDate]
    returns the ISO form of the start of the current local day: an instant
    at which the local clock shows midnight, not after now and less than a
    day before it. *)
Theorem today_is_start_of_local_day
    (off : Z) (legacy : string -> date) (now : Z) (input : option string) :
  - msPerDay <= off <= msPerDay ->
  0 <= now <= maxTime - 2 * msPerDay ->
  is_falsy input || lowered_is input "today" = true ->
  exists m,
    parseSinceDate (fixed_zone off) legacy now input = Ok (iso_string m)
    /\ TimeWithinDay (m + off) = 0
    /\ m <= now < m + msPerDay.
Proof.
  intros Ho Hn Hk. exists (local_midnight (fixed_zone off) now 0).
  split.
  - apply resolve_today; [intros; unfold fixed_zone; lia | lia | exact Hk].
  - apply local_midnight_is_start_of_day.
Qed.

Lemma today_is_start_of_local_day_witness :
  exists m,
    parseSinceDate (fixed_zone 18000000) (fun _ => None) 1755259200000
      (Some "ToDay") = Ok (iso_string m)
    /\ TimeWithinDay (m + 18000000) = 0
    /\ m <= 1755259200000 < m + msPerDay.
Proof.
  apply today_is_start_of_local_day.
  - unfold msPerDay. lia.
  - unfold maxTime, msPerDay. lia.
  - reflexivity.
Defined.

(** X2. "yesterday" in any letter case resolves to the instant exactly
    24 hours before the one "today" resolves to (in a zone with a constant
    offset), again a local midnight. *)
Theorem yesterday_is_a_day_before_today
    (off : Z) (legacy : string -> date) (now : Z) (s : string) :
  - msPerDay <= off <= msPerDay ->
  0 <= now <= maxTime - 2 * msPerDay ->
  JSString.toLowerCase s = "yesterday" ->
  exists m,
    parseSinceDate (fixed_zone off) legacy now (Some "today")
    = Ok (iso_string m)
    /\ parseSinceDate (fixed_zone off) legacy now (Some s)
       = Ok (iso_string (m - msPerDay))
    /\ TimeWithinDay (m - msPerDay + off) = 0.
Proof.
  intros Ho Hn Hk. exists (local_midnight (fixed_zone off) now 0).
  assert (Hz : forall t b, - msPerDay <= fixed_zone off t b <= msPerDay)
    by (intros; unfold fixed_zone; lia).
  split; [apply resolve_today; [exact Hz | lia | reflexivity]|].
  assert (E : local_midnight (fixed_zone off) now (-1)
              = local_midnight (fixed_zone off) now 0 - msPerDay).
  { unfold local_midnight, UTC, fixed_zone. lia. }
  rewrite <- E. split.
  - now apply resolve_yesterday.
  - destruct (local_midnight_fixed off now (-1)) as [Hm _].
    unfold LocalTime, fixed_zone in Hm. exact Hm.
Qed.

Lemma yesterday_is_a_day_before_today_witness :
  exists m,
    parseSinceDate (fixed_zone 18000000) (fun _ => None) 1755259200000
      (Some "today") = Ok (iso_string m)
    /\ parseSinceDate (fixed_zone 18000000) (fun _ => None) 1755259200000
         (Some "Yesterday") = Ok (iso_string (m - msPerDay))
    /\ TimeWithinDay (m - msPerDay + 18000000) = 0.
Proof.
  apply yesterday_is_a_day_before_today.
  - unfold msPerDay. lia.
  - unfold maxTime, msPerDay. lia.
  - reflexivity.
Defined.



End ResolverExtras.

(** ** More on strings: reversal, trimming, lines *)

Module StringExtras.
Import PromptFacts PathFacts.

Lemma rev_app_rev_app (a b c : string) :
  String.rev_app (String.rev_app a b) c = String.rev_app b (a +:+ c).
Proof.
  revert b c. induction a as [|x a IH]; intros b c; [reflexivity|].
  cbn [String.rev_app]. rewrite IH. reflexivity.
Qed.

Lemma rev_rev (s : string) : String.rev (String.rev s) = s.
Proof.
  unfold String.rev. rewrite rev_app_rev_app. cbn [String.rev_app].
  apply sapp_nil_r.
Qed.

Lemma rev_app_sapp (a b c : string) :
  String.rev_app (a +:+ b) c = String.rev_app b (String.rev_app a c).
Proof.
  revert c. induction a as [|x a IH]; intros c; [reflexivity|].
  change (String x a +:+ b) with (String x (a +:+ b)).
  cbn [String.rev_app]. apply IH.
Qed.

Lemma rev_sapp (a b : string) :
  String.rev (a +:+ b) = String.rev b +:+ String.rev a.
Proof.
  unfold String.rev. rewrite rev_app_sapp. apply rev_app_app.
Qed.

Lemma length_rev_app (a b : string) :
  String.length (String.rev_app a b)
  = (String.length a + String.length b)%nat.
Proof.
  revert b. induction a as [|x a IH]; intros b; [reflexivity|].
  cbn [String.rev_app String.length]. rewrite IH. cbn [String.length]. lia.
Qed.

Lemma length_rev (s : string) : String.length (String.rev s) = String.length s.
Proof. unfold String.rev. rewrite length_rev_app. cbn. lia. Qed.

Lemma strip_prefix_length (p s r : string) :
  JSString.strip_prefix p s = Some r ->
  (String.length r <= String.length s)%nat.
Proof.
  revert s. induction p as [|a p IH]; intros s E.
  - cbn in E. injection E as <-. lia.
  - destruct s as [|b s]; [discriminate|]. cbn [JSString.strip_prefix] in E.
    destruct (Ascii.eqb a b); [|discriminate].
    apply IH in E. cbn [String.length]. lia.
Qed.

Lemma strip_one_length (ws : list string) (s r : string) :
  JSString.strip_one ws s = Some r ->
  (String.length r <= String.length s)%nat.
Proof.
  induction ws as [|w ws IH]; [discriminate|]. cbn [JSString.strip_one].
  destruct (JSString.strip_prefix w s) as [r'|] eqn:E.
  - intros [= <-]. now apply strip_prefix_length in E.
  - exact IH.
Qed.

Lemma trimStart_fuel_length (n : nat) :
  forall s, (String.length (JSString.trimStart_fuel n s) <= String.length s)%nat.
Proof.
  induction n as [|n IH]; intros s; [cbn; lia|]. cbn [JSString.trimStart_fuel].
  destruct (JSString.strip_one JSString.white_space s) as [r|] eqn:E; [|lia].
  apply strip_one_length in E. specialize (IH r). lia.
Qed.

Lemma trimEnd_fuel_length (n : nat) :
  forall s, (String.length (JSString.trimEnd_fuel n s) <= String.length s)%nat.
Proof.
  induction n as [|n IH]; intros s; [cbn; lia|]. cbn [JSString.trimEnd_fuel].
  destruct (JSString.strip_one JSString.rev_ws s) as [r|] eqn:E; [|lia].
  apply strip_one_length in E. specialize (IH r). lia.
Qed.

(** Trimming never makes a string longer. *)
Lemma trim_length (s : string) :
  (String.length (JSString.trim s) <= String.length s)%nat.
Proof.
  unfold JSString.trim, JSString.trimEnd, JSString.trimStart.
  rewrite length_rev.
  pose proof (trimStart_fuel_length (String.length s) s) as H1.
  set (t := JSString.trimStart_fuel (String.length s) s) in *.
  pose proof (trimEnd_fuel_length (String.length t) (String.rev t)) as H2.
  rewrite length_rev in H2. lia.
Qed.

(** No white space character starts or ends with a visible ASCII
    character. *)
Lemma strip_one_printable (c : ascii) (r : string) :
  printable_char c = true ->
  JSString.strip_one JSString.white_space (String c r) = None
  /\ JSString.strip_one JSString.rev_ws (String c r) = None.
Proof.
  intros Hc.
  destruct c as [b0 b1 b2 b3 b4 b5 b6 b7].
  destruct b0, b1, b2, b3, b4, b5, b6, b7;
    first [discriminate Hc | split; reflexivity].
Qed.

(** A string that starts and ends with a visible character is its own
    trimmed form. *)
Lemma trim_printable_ends (s : string) (c c' : ascii) (r r' : string) :
  s = String c r -> printable_char c = true ->
  String.rev s = String c' r' -> printable_char c' = true ->
  JSString.trim s = s.
Proof.
  intros Es Hc Er Hc'.
  assert (Hs : JSString.trimStart s = s).
  { unfold JSString.trimStart. rewrite Es. cbn [String.length JSString.trimStart_fuel].
    now rewrite (proj1 (strip_one_printable c r Hc)). }
  unfold JSString.trim. rewrite Hs. unfold JSString.trimEnd.
  rewrite Er. rewrite Es at 1. cbn [String.length JSString.trimEnd_fuel].
  rewrite (proj2 (strip_one_printable c' r' Hc')).
  rewrite <- Er. apply rev_rev.
Qed.

Lemma printable_rev_app (a b : string) :
  printable a = true -> printable b = true ->
  printable (String.rev_app a b) = true.
Proof.
  revert b. induction a as [|x a IH]; intros b Ha Hb; [exact Hb|].
  cbn [printable] in Ha. apply andb_true_iff in Ha as [Hx Ha].
  cbn [String.rev_app]. apply IH; [exact Ha|]. cbn [printable].
  now rewrite Hx, Hb.
Qed.

Lemma hash_like_first (h : string) :
  hash_like h = true -> exists c r, h = String c r /\ printable_char c = true.
Proof.
  unfold hash_like. destruct h as [|c r]; [discriminate|]. cbn [printable].
  intros E. apply andb_true_iff in E as [_ E].
  apply andb_true_iff in E as [Hc _]. eauto.
Qed.

Lemma hash_like_last (h : string) :
  hash_like h = true ->
  exists c r, String.rev h = String c r /\ printable_char c = true.
Proof.
  intros Hh. assert (Hp : printable (String.rev h) = true).
  { unfold hash_like in Hh. apply andb_true_iff in Hh as [_ Hh].
    now apply printable_rev_app. }
  destruct (String.rev h) as [|c r] eqn:E.
  - exfalso. apply (f_equal String.rev) in E. rewrite rev_rev in E.
    subst h. discriminate.
  - cbn [printable] in Hp. apply andb_true_iff in Hp as [Hc _]. eauto.
Qed.

Lemma printable_char_not (c : ascii) (n : nat) :
  printable_char c = true -> (n < 33)%nat ->
  Ascii.eqb c (ascii_of_nat n) = false.
Proof.
  intros Hc Hn. destruct (Ascii.eqb_spec c (ascii_of_nat n)) as [->|]; [|reflexivity].
  unfold printable_char in Hc. rewrite nat_ascii_embedding in Hc by lia.
  apply andb_true_iff in Hc as [Hc _]. apply Nat.leb_le in Hc. lia.
Qed.

(** Reading a run of visible characters moves it to the current line. *)
Lemma split_lines_go_printable (h : string) :
  forall cur s,
    printable h = true ->
    split_lines_go cur (h +:+ s) = split_lines_go (String.rev_app h cur) s.
Proof.
  induction h as [|c h IH]; intros cur s Hh; [reflexivity|].
  cbn [printable] in Hh. apply andb_true_iff in Hh as [Hc Hh].
  change (String c h +:+ s) with (String c (h +:+ s)).
  cbn [split_lines_go String.rev_app].
  rewrite (printable_char_not c 10 Hc) by lia.
  rewrite (printable_char_not c 13 Hc) by lia.
  now apply IH.
Qed.

Lemma split_lines_go_last (h : string) :
  printable h = true -> split_lines_go "" h = [h].
Proof.
  intros Hh. rewrite <- (sapp_nil_r h) at 1.
  rewrite split_lines_go_printable by exact Hh. cbn [split_lines_go].
  fold (String.rev h). now rewrite rev_rev.
Qed.

(** The lines of hashes joined by line feeds, or by carriage return and
    line feed, are the hashes. *)
Lemma split_lines_concat (sep : string) (hs : list string) :
  sep = nl \/ sep = cr +:+ nl ->
  hs <> [] -> Forall (fun h => hash_like h = true) hs ->
  split_lines (String.concat sep hs) = hs.
Proof.
  intros Hsep Hne Hs. unfold split_lines.
  induction hs as [|h hs IH]; [congruence|].
  inversion Hs as [|? ? Hh Hrest]; subst.
  assert (Hp : printable h = true).
  { unfold hash_like in Hh. now apply andb_true_iff in Hh as [_ ?]. }
  destruct hs as [|h' hs].
  - cbn [String.concat]. now apply split_lines_go_last.
  - rewrite concat_cons_nonempty by discriminate.
    rewrite split_lines_go_printable by exact Hp.
    fold (String.rev h).
    assert (Hrec : split_lines_go "" (String.concat sep (h' :: hs)) = h' :: hs)
      by (apply IH; [discriminate | assumption]).
    destruct Hsep as [-> | ->].
    + change (nl +:+ String.concat nl (h' :: hs))
        with (String (ascii_of_nat 10) (String.concat nl (h' :: hs))).
      cbn [split_lines_go].
      replace (Ascii.eqb (ascii_of_nat 10) (ascii_of_nat 10)) with true
        by reflexivity.
      now rewrite rev_rev, Hrec.
    + change ((cr +:+ nl) +:+ String.concat (cr +:+ nl) (h' :: hs))
        with (String (ascii_of_nat 13)
                (String (ascii_of_nat 10) (String.concat (cr +:+ nl) (h' :: hs)))).
      cbn [split_lines_go].
      replace (Ascii.eqb (ascii_of_nat 13) (ascii_of_nat 10)) with false
        by reflexivity.
      replace (Ascii.eqb (ascii_of_nat 13) (ascii_of_nat 13)) with true
        by reflexivity.
      replace (Ascii.eqb (ascii_of_nat 10) (ascii_of_nat 10)) with true
        by reflexivity.
      now rewrite rev_rev, Hrec.
Qed.

Lemma concat_first (sep : string) (hs : list string) :
  hs <> [] -> Forall (fun h => hash_like h = true) hs ->
  exists c r, String.concat sep hs = String c r /\ printable_char c = true.
Proof.
  intros Hne Hs. destruct hs as [|h hs]; [congruence|].
  inversion Hs as [|? ? Hh _]; subst.
  destruct (hash_like_first h Hh) as (c & r & -> & Hc).
  destruct hs as [|h' hs].
  - eauto.
  - rewrite concat_cons_nonempty by discriminate. eauto.
Qed.

Lemma concat_last (sep : string) (hs : list string) :
  hs <> [] -> Forall (fun h => hash_like h = true) hs ->
  exists c r,
    String.rev (String.concat sep hs) = String c r /\ printable_char c = true.
Proof.
  intros Hne Hs. induction hs as [|h hs IH]; [congruence|].
  inversion Hs as [|? ? Hh Hrest]; subst.
  destruct hs as [|h' hs].
  - cbn [String.concat]. now apply hash_like_last.
  - rewrite concat_cons_nonempty by discriminate.
    destruct IH as (c & r & E & Hc); [discriminate | assumption |].
    rewrite rev_sapp, rev_sapp, E. eauto.
Qed.

Lemma filter_Boolean_hashes (hs : list string) :
  Forall (fun h => hash_like h = true) hs -> filter_Boolean hs = hs.
Proof.
  induction 1 as [|h hs Hh _ IH]; [reflexivity|].
  unfold filter_Boolean in *. cbn [List.filter].
  unfold hash_like in Hh. apply andb_true_iff in Hh as [Hne _].
  now rewrite Hne, IH.
Qed.

Lemma split_lines_go_no_lf (s : string) :
  forall cur,
    no_lf cur = true ->
    Forall (fun x => no_lf x = true) (split_lines_go cur s).
Proof.
  assert (Hrev : forall a b, no_lf a = true -> no_lf b = true ->
                             no_lf (String.rev_app a b) = true).
  { induction a as [|x a IHa]; intros b Ha Hb; [exact Hb|].
    cbn [no_lf] in Ha. apply andb_true_iff in Ha as [Hx Ha].
    cbn [String.rev_app]. apply IHa; [exact Ha|]. cbn [no_lf].
    now rewrite Hx, Hb. }
  induction s as [|c r IH]; intros cur Hcur; cbn [split_lines_go].
  - constructor; [|constructor]. now apply Hrev.
  - destruct (Ascii.eqb c (ascii_of_nat 10)) eqn:E10.
    + constructor; [now apply Hrev | now apply IH].
    + assert (Hpush : no_lf (String c cur) = true)
        by (cbn [no_lf]; now rewrite E10).
      destruct (Ascii.eqb c (ascii_of_nat 13)); [|now apply IH].
      destruct r as [|c1 r1]; [now apply IH|].
      destruct (Ascii.eqb c1 (ascii_of_nat 10)) eqn:E1; [|now apply IH].
      constructor; [now apply Hrev|].
      specialize (IH "" eq_refl). cbn [split_lines_go] in IH.
      rewrite E1 in IH. now inversion IH.
Qed.

Lemma filter_Boolean_nonempty (l : list string) :
  Forall (fun x => x <> "") (filter_Boolean l).
Proof.
  induction l as [|x l IH]; [constructor|].
  unfold filter_Boolean in *. cbn [List.filter].
  destruct (String.eqb_spec x ""); cbn [negb]; [exact IH|].
  constructor; assumption.
Qed.

End StringExtras.

(** ** More on the History Extractor *)

Module ExtractorExtras.
Import PromptFacts PathFacts DateNameFacts StringExtras RunFacts GenerateFacts
  Sample.

Section WithHost.
Variable H : host.

(** X4. Every hash the history query returns is a non-empty line: empty
    lines of the output are dropped and no hash contains a line feed. *)
Theorem hashes_are_nonempty_lines
    (repo since : string) (w : world) (hashes : list string) :
  fst (getCommitHashes H repo since w) = Ret hashes ->
  Forall (fun h => h <> "" /\ no_lf h = true) hashes.
Proof.
  rewrite (uniform_fst _ _ _ w (uniform_getCommitHashes H repo since)).
  destruct (exec_callback_args H (git_log_cmd repo since) default_maxBuffer)
    as [[err|] stdout]; cbn [hashes_callback to_outcome]; [discriminate|].
  intros [= <-].
  pose proof (filter_Boolean_nonempty (split_lines (JSString.trim stdout))) as Hn.
  pose proof (split_lines_go_no_lf (JSString.trim stdout) "" eq_refl) as Hl.
  fold (split_lines (JSString.trim stdout)) in Hl.
  rewrite Forall_forall in *. intros h Hh. split; [now apply Hn|].
  apply Hl. unfold filter_Boolean in Hh. apply list_elem_of_In in Hh.
  apply filter_In in Hh as [Hh _]. now apply list_elem_of_In.
Qed.

(** X5. When [git log] exits with code 0 and prints, within the buffer,
    hashes separated by line feeds (or by carriage return and line feed),
    the history query returns exactly those hashes in that order; when it
    prints nothing, it returns no hash. *)
Theorem history_query_returns_the_printed_hashes
    (repo since : string) (w : world) (sep : string) (hs : list string) :
  let p := shell H (git_log_cmd repo since) in
  exit_code p = 0 ->
  p_stdout p = String.concat sep hs ->
  sep = nl \/ sep = cr +:+ nl ->
  Forall (fun h => hash_like h = true) hs ->
  too_large default_maxBuffer (p_stdout p) = false ->
  too_large default_maxBuffer (p_stderr p) = false ->
  fst (getCommitHashes H repo since w) = Ret hs.
Proof.
  intros p Hx Ho Hsep Hs Hb1 Hb2. subst p.
  rewrite (uniform_fst _ _ _ w (uniform_getCommitHashes H repo since)).
  unfold exec_callback_args. rewrite Hb1, Hb2, Hx. cbn [Z.eqb].
  cbn [hashes_callback to_outcome]. f_equal. rewrite Ho.
  destruct hs as [|h hs]; [reflexivity|].
  assert (Hne : h :: hs <> []) by discriminate.
  destruct (concat_first sep (h :: hs) Hne Hs) as (c & r & E1 & Hc).
  destruct (concat_last sep (h :: hs) Hne Hs) as (c' & r' & E2 & Hc').
  rewrite (trim_printable_ends _ c c' r r' E1 Hc E2 Hc').
  rewrite split_lines_concat by assumption.
  now apply filter_Boolean_hashes.
Qed.

(** A fetch that succeeds returns the trimmed output, which fits in the
    diff buffer. *)
Lemma fetched_diff_fits (repo h : string) (w : world) (d : string) :
  fst (getCommitDiff H repo h w) = Ret d ->
  Z.of_nat (String.length d) <= diff_maxBuffer.
Proof.
  rewrite (uniform_fst _ _ _ w (uniform_getCommitDiff H repo h)).
  unfold exec_callback_args.
  destruct (too_large diff_maxBuffer (p_stdout (shell H (git_show_cmd repo h))))
    eqn:T; [discriminate|].
  destruct (too_large diff_maxBuffer (p_stderr _)); [discriminate|].
  destruct (exit_code _ =? 0); [|discriminate].
  cbn [diff_callback to_outcome]. intros [= <-].
  unfold too_large in T. apply Z.ltb_ge in T.
  pose proof (trim_length (p_stdout (shell H (git_show_cmd repo h)))). lia.
Qed.

(** What the extractor returns when it returns. *)
Lemma batch_shape
    (repo since : string) (w : world) (diffs : list string) :
  fst (getCommitDiffs H repo since w) = Ret diffs ->
  exists hashes,
    fst (getCommitHashes H repo since w) = Ret hashes
    /\ Forall2 (fun h d => fst (getCommitDiff H repo h w) = Ret d)
         (firstn 10 hashes) diffs
    /\ snd (getCommitDiffs H repo since w)
       = add_events w
           (log_event repo since
              :: List.map (show_event repo) (firstn 10 hashes)).
Proof.
  intros Hd.
  destruct (getCommitDiffs_uniform H repo since w)
    as [(e & _ & U) | (hs & Hhs & [(ds & U & F) | (e & pre & h & post & _ & U & _)])].
  - rewrite U in Hd. discriminate.
  - rewrite (uniform_fst _ _ _ w U) in Hd. injection Hd as ->.
    exists hs. repeat split; try assumption. now rewrite U.
  - rewrite U in Hd. discriminate.
Qed.

(** X7. A batch never has more than ten diffs: when the extractor returns,
    it returns one diff for each of the first ten hashes of the history
    query, in their order, so as many diffs as there are hashes up to
    ten. *)
Theorem batch_has_at_most_ten_diffs
    (repo since : string) (w : world) (diffs : list string) :
  fst (getCommitDiffs H repo since w) = Ret diffs ->
  (length diffs <= 10)%nat
  /\ exists hashes,
       fst (getCommitHashes H repo since w) = Ret hashes
       /\ length diffs = Nat.min 10 (length hashes)
       /\ Forall2 (fun h d => fst (getCommitDiff H repo h w) = Ret d)
            (firstn 10 hashes) diffs
       /\ snd (getCommitDiffs H repo since w)
          = add_events w
              (log_event repo since
                 :: List.map (show_event repo) (firstn 10 hashes)).
Proof.
  intros Hd. destruct (batch_shape repo since w diffs Hd) as (hs & Hhs & F & T).
  assert (Hlen : length diffs = Nat.min 10 (length hs)).
  { apply Forall2_length in F. rewrite length_firstn in F. lia. }
  split; [lia|]. exists hs. repeat split; assumption.
Qed.

(** X8. The extractor never returns a partial batch: when the fetch of one
    of the first ten hashes fails, the extraction fails, with the error of
    the first fetch that failed, and no later hash is fetched. *)
Theorem failed_fetch_fails_the_extraction
    (repo since : string) (w : world) (hashes : list string) (h : string)
    (e : jserror) :
  fst (getCommitHashes H repo since w) = Ret hashes ->
  h ∈ firstn 10 hashes ->
  fst (getCommitDiff H repo h w) = Throw e ->
  exists pre h' post e',
    firstn 10 hashes = pre ++ h' :: post
    /\ Forall (fun x => exists d, fst (getCommitDiff H repo x w) = Ret d) pre
    /\ fst (getCommitDiff H repo h' w) = Throw e'
    /\ fst (getCommitDiffs H repo since w) = Throw e'
    /\ snd (getCommitDiffs H repo since w)
       = add_events w
           (log_event repo since :: List.map (show_event repo) (pre ++ [h'])).
Proof.
  intros Hh Hin He.
  destruct (getCommitDiffs_uniform H repo since w)
    as [(e0 & He0 & _) | (hs & Hhs & [(ds & U & F) | (e' & pre & h' & post & E & U & Fp & T)])].
  - rewrite Hh in He0. discriminate.
  - exfalso. rewrite Hh in Hhs. injection Hhs as <-.
    unfold slice_0_10 in F.
    apply list_elem_of_lookup in Hin as [i Hi].
    destruct (Forall2_lookup_l _ _ _ _ _ F Hi) as (d & _ & Hd).
    rewrite He in Hd. discriminate.
  - rewrite Hh in Hhs. injection Hhs as <-.
    exists pre, h', post, e'. unfold slice_0_10 in E.
    repeat split; try assumption; now rewrite U.
Qed.

Lemma length_concat (sep : string) (l : list string) :
  String.length (String.concat sep l)
  = (list_sum (List.map String.length l)
     + String.length sep * (length l - 1))%nat.
Proof.
  induction l as [|x l IH];
    [cbn [String.concat List.map list_sum fold_right length String.length];
     nia|].
  destruct l as [|y l].
  - cbn [String.concat List.map list_sum fold_right length]. nia.
  - rewrite concat_cons_nonempty by discriminate.
    rewrite !length_app, IH.
    cbn [List.map list_sum fold_right length]. nia.
Qed.

(** X9. The size of the prompt: the template, the diffs and seven
    characters of separator between neighbours; for a batch the extractor
    returned that is at most the template, ten diff buffers and nine
    separators. *)
Theorem prompt_size_is_bounded
    (repo since : string) (w : world) (diffs : list string) :
  fst (getCommitDiffs H repo since w) = Ret diffs ->
  String.length (buildPromptFromDiffs diffs)
  = (String.length prompt_head + String.length prompt_tail
     + list_sum (List.map String.length diffs) + 7 * (length diffs - 1))%nat
  /\ Z.of_nat (String.length (buildPromptFromDiffs diffs))
     <= Z.of_nat (String.length prompt_head + String.length prompt_tail)
        + 10 * diff_maxBuffer + 63.
Proof.
  intros Hd.
  assert (Hlen : String.length (buildPromptFromDiffs diffs)
                 = (String.length prompt_head + String.length prompt_tail
                    + list_sum (List.map String.length diffs)
                    + 7 * (length diffs - 1))%nat).
  { unfold buildPromptFromDiffs. rewrite join_concat, !length_app, length_concat.
    change (String.length diff_separator) with 7%nat. lia. }
  split; [exact Hlen|]. rewrite Hlen.
  destruct (batch_shape repo since w diffs Hd) as (hashes & _ & F & _).
  assert (Hten : (length diffs <= 10)%nat).
  { apply Forall2_length in F. rewrite length_firstn in F. lia. }
  assert (Hsum : Z.of_nat (list_sum (List.map String.length diffs))
                 <= Z.of_nat (length diffs) * diff_maxBuffer).
  { clear Hlen Hten Hd. induction F as [|h d hs ds Hhd _ IH]; [cbn; lia|].
    apply fetched_diff_fits in Hhd. unfold diff_maxBuffer in *.
    cbn [List.map length]. 
    change (list_sum (String.length d :: List.map String.length ds))
      with (String.length d + list_sum (List.map String.length ds))%nat.
    lia. }
  unfold diff_maxBuffer in *. lia.
Qed.

(** X6. When the history query fails (the command exits with a code other
    than 0, for instance because the path is not a repository), the run
    prints "Command failed:" with the command and what it wrote to its
    error stream, and ends by [process.exit(1)]: no diff is fetched, the
    back end is not started, nothing is written. *)
Theorem failed_history_query_fails_the_run
    (since : string) (w : world) (a : active) :
  let cmd := git_log_cmd (prop_to_string (a_repo a)) since in
  fst (getActiveRepoPath H w) = Ret a ->
  exit_code (shell H cmd) <> 0 ->
  too_large default_maxBuffer (p_stdout (shell H cmd)) = false ->
  too_large default_maxBuffer (p_stderr (shell H cmd)) = false ->
  generate H since w
  = (Exit 1,
     add_events w
       [banner a;
        ExecCmd cmd default_maxBuffer;
        StdoutWrite spinner_clear;
        ConsoleError
          [AStr ("Command failed: " +:+ cmd +:+ nl +:+ p_stderr (shell H cmd))]]).
Proof.
  intros cmd Ha Hx Hb1 Hb2.
  set (e := Error ("Command failed: " +:+ cmd +:+ nl +:+ p_stderr (shell H cmd))).
  assert (U : uniform (getCommitDiffs H (prop_to_string (a_repo a)) since)
                (Throw e) [log_event (prop_to_string (a_repo a)) since]).
  { unfold getCommitDiffs. apply uniform_bind_throw.
    pose proof (uniform_getCommitHashes H (prop_to_string (a_repo a)) since) as Uh.
    unfold exec_callback_args in Uh. fold cmd in Uh.
    rewrite Hb1, Hb2 in Uh.
    destruct (Z.eqb_spec (exit_code (shell H cmd)) 0); [contradiction|].
    exact Uh. }
  exact (generate_extract_error H since w a Ha _ _ U e eq_refl).
Qed.

End WithHost.

Lemma hashes_are_nonempty_lines_witness :
  Forall (fun h => h <> "" /\ no_lf h = true) (hashes 3).
Proof.
  apply (hashes_are_nonempty_lines host3 "/repo" since world0).
  vm_compute. reflexivity.
Defined.

Lemma history_query_returns_the_printed_hashes_witness :
  fst (getCommitHashes host_exact "/repo" since world0) = Ret (hashes 3).
Proof.
  apply (history_query_returns_the_printed_hashes host_exact "/repo" since
           world0 nl (hashes 3)).
  - reflexivity.
  - vm_compute. reflexivity.
  - now left.
  - repeat constructor.
  - vm_compute. reflexivity.
  - reflexivity.
Defined.

Lemma batch_has_at_most_ten_diffs_witness :
  (length (diffs 3) <= 10)%nat.
Proof.
  apply (batch_has_at_most_ten_diffs host3 "/repo" since world0 (diffs 3)).
  vm_compute. reflexivity.
Defined.

Lemma failed_fetch_fails_the_extraction_witness :
  exists pre h' post e',
    firstn 10 (hashes 1) = pre ++ h' :: post
    /\ Forall (fun x => exists d,
                   fst (getCommitDiff host_huge "/repo" x world0) = Ret d) pre
    /\ fst (getCommitDiff host_huge "/repo" h' world0) = Throw e'
    /\ fst (getCommitDiffs host_huge "/repo" since world0) = Throw e'
    /\ snd (getCommitDiffs host_huge "/repo" since world0)
       = add_events world0
           (log_event "/repo" since
              :: List.map (show_event "/repo") (pre ++ [h'])).
Proof.
  apply (failed_fetch_fails_the_extraction host_huge "/repo" since world0
           (hashes 1) (hash 1) (maxBuffer_error "stdout")).
  - vm_compute. reflexivity.
  - apply elem_of_cons. now left.
  - rewrite (uniform_fst _ _ _ world0
               (getCommitDiff_too_large host_huge "/repo" (hash 1)
                  (Scenarios.huge_diff_too_large _))).
    reflexivity.
Defined.

Lemma prompt_size_is_bounded_witness :
  Z.of_nat (String.length (buildPromptFromDiffs (diffs 3)))
  <= Z.of_nat (String.length prompt_head + String.length prompt_tail)
     + 10 * diff_maxBuffer + 63.
Proof.
  apply (prompt_size_is_bounded host3 "/repo" since world0 (diffs 3)).
  vm_compute. reflexivity.
Defined.

Lemma failed_history_query_fails_the_run_witness :
  fst (generate host_nogit since world0) = Exit 1.
Proof.
  rewrite (failed_history_query_fails_the_run host_nogit since world0 active_p).
  - reflexivity.
  - vm_compute. reflexivity.
  - discriminate.
  - reflexivity.
  - reflexivity.
Defined.

End ExtractorExtras.

(** ** More on the registry *)

Module RegistryExtras.
Import RunFacts GenerateFacts Sample.

Section WithHost.
Variable H : host.

Lemma loadConfig_loaded (w : world) (text : string) (cfg : config) :
  files w !! CONFIG H = Some text -> JSON_parse H text = Ok cfg ->
  loadConfig H w = (Ret cfg, w).
Proof. intros Hf Hp. unfold loadConfig. now rewrite Hf, Hp. Qed.

(** X10. Activating a project that the registry maps to a path saves the
    registry with only the active project changed, changes no other file,
    and (when the registry is read back as it was written) the next run
    works on that project's path. *)
Theorem activated_project_is_the_next_runs_project
    (name path text : string) (cfg : config) (w : world) :
  files w !! CONFIG H = Some text ->
  JSON_parse H text = Ok cfg ->
  projects cfg !! name = Some path ->
  path <> "" -> name <> "" ->
  let cfg' := {| projects := projects cfg;
                 activeProject := Some name;
                 worklogFolderName := worklogFolderName cfg |} in
  JSON_parse H (JSON_stringify H cfg') = Ok cfg' ->
  let r := setActiveProject H (Some name) w in
  fst r = Ret tt
  /\ files (snd r) = <[CONFIG H := JSON_stringify H cfg']> (files w)
  /\ (forall p, p <> CONFIG H -> files (snd r) !! p = files w !! p)
  /\ exists a,
       fst (getActiveRepoPath H (snd r)) = Ret a
       /\ a_name a = name /\ a_repo a = PString path.
Proof.
  intros Hf Hp Hn Hpath Hname cfg' Hrt r. subst cfg'.
  set (cfg' := {| projects := projects cfg;
                  activeProject := Some name;
                  worklogFolderName := worklogFolderName cfg |}) in *.
  assert (Hr : r = (Ret tt,
                    {| files := <[CONFIG H := JSON_stringify H cfg']> (files w);
                       trace := trace w ++
                         [Mkdir (Path.dirname (CONFIG H));
                          WriteFile (CONFIG H) (JSON_stringify H cfg');
                          ConsoleLog [AStr "activeProject set to";
                                      AOpt (Some name)]] |})).
  { subst r. unfold setActiveProject, mbind, M_bind.
    rewrite (loadConfig_loaded w text cfg Hf Hp).
    cbn [opt_to_string]. unfold get_prop. rewrite Hn. cbn [truthy].
    destruct (String.eqb_spec path ""); [contradiction|]. cbn [negb].
    unfold saveConfig, mkdirSync, writeFileSync, mbind, M_bind, emit, add_events.
    cbn [files trace]. fold cfg'. now rewrite <- !app_assoc. }
  rewrite Hr. cbn [fst snd files].
  split; [reflexivity|]. split; [reflexivity|].
  split; [intros p Hne; now apply lookup_insert_ne|].
  eexists. split.
  - unfold getActiveRepoPath, mbind, M_bind, loadConfig. cbn [files].
    rewrite lookup_insert_eq, Hrt. subst cfg'.
    cbn [to_outcome activeProject projects].
    destruct (String.eqb_spec name ""); [contradiction|].
    unfold get_prop. rewrite Hn. cbn [truthy].
    destruct (String.eqb_spec path ""); [contradiction|]. cbn [negb].
    reflexivity.
  - split; reflexivity.
Qed.

(** X11. A name the registry maps to the empty path, like a name it does
    not know (or no name at all), is refused with "Unknown project:" and the
    name, before anything is written. *)
Theorem name_without_path_is_refused
    (name : option string) (text : string) (cfg : config) (w : world) :
  files w !! CONFIG H = Some text ->
  JSON_parse H text = Ok cfg ->
  projects cfg !! opt_to_string name = Some ""
  \/ (projects cfg !! opt_to_string name = None
      /\ existsb (String.eqb (opt_to_string name)) Object_prototype_keys
         = false) ->
  setActiveProject H name w
  = (Throw (Error ("Unknown project: " +:+ opt_to_string name)), w).
Proof.
  intros Hf Hp Hn. unfold setActiveProject, mbind, M_bind.
  rewrite (loadConfig_loaded w text cfg Hf Hp). unfold get_prop.
  destruct Hn as [-> | [-> ->]]; reflexivity.
Qed.

End WithHost.

Lemma activated_project_is_the_next_runs_project_witness :
  exists a,
    fst (getActiveRepoPath host_two
           (snd (setActiveProject host_two (Some "q") world_two))) = Ret a
    /\ a_name a = "q" /\ a_repo a = PString "/other".
Proof.
  apply (activated_project_is_the_next_runs_project host_two "q" "/other"
           "two projects, active p" (registry_two "p") world_two).
  - vm_compute. reflexivity.
  - reflexivity.
  - vm_compute. reflexivity.
  - discriminate.
  - discriminate.
  - reflexivity.
Defined.

Lemma name_without_path_is_refused_witness :
  setActiveProject host_two (Some "r") world_two
  = (Throw (Error "Unknown project: r"), world_two).
Proof.
  apply (name_without_path_is_refused host_two (Some "r")
           "two projects, active p" (registry_two "p") world_two).
  - vm_compute. reflexivity.
  - reflexivity.
  - left. vm_compute. reflexivity.
Defined.

End RegistryExtras.

(** ** More on the pipeline *)

Module PipelineExtras.
Import RunFacts GenerateFacts Sample.

Section WithHost.
Variable H : host.

(** The extractor does not end the process. *)
Lemma getCommitDiffs_no_exit (repo since : string) (w : world) (c : Z) :
  fst (getCommitDiffs H repo since w) <> Exit c.
Proof.
  destruct (getCommitDiffs_uniform H repo since w)
    as [(e & _ & U) | (hs & _ & [(ds & U & _) | (e & pre & h & post & _ & U & _)])];
    rewrite U; discriminate.
Qed.

(** Every way a run can go once the registry gave the active project. *)
Lemma generate_cases (since : string) (w : world) (a : active) :
  fst (getActiveRepoPath H w) = Ret a ->
  exists before after,
    (exists o,
        (o = Ret tt \/ o = Exit 1)
        /\ generate H since w
           = (o, add_events w
                   (banner a :: before ++ StdoutWrite spinner_clear :: after)))
    \/ (exists p c,
           generate H since w
           = (Ret tt,
              {| files := <[p := c]> (files w);
                 trace := trace w ++
                   banner a :: before ++ StdoutWrite spinner_clear :: after |})).
Proof.
  intros Ha.
  destruct (getCommitDiffs_events H (prop_to_string (a_repo a)) since w)
    as (evs & U & _).
  destruct (fst (getCommitDiffs H (prop_to_string (a_repo a)) since w))
    as [diffs|err|c] eqn:Ho.
  - destruct diffs as [|d ds].
    + exists evs, [ConsoleLog [AStr "No commits found since"; AStr since]].
      left. exists (Ret tt). split; [now left|].
      exact (generate_no_commits H since w a Ha _ evs U eq_refl).
    + destruct (gemini H (buildPromptFromDiffs (d :: ds))) as [code out] eqn:Hg.
      destruct (decide (code = Some 0)) as [->|Hc].
      * assert (Hcases : (exists repo, a_repo a = PString repo)
                         \/ (forall repo, a_repo a <> PString repo)).
        { destruct (a_repo a); [left; eauto | right; discriminate ..]. }
        destruct Hcases as [[repo Hr] | Hr].
        -- exists (evs ++ [spawn_event (buildPromptFromDiffs (d :: ds))]).
           eexists. right. do 2 eexists.
           rewrite (generate_success H since w a Ha _ evs U (d :: ds) out repo
                      eq_refl ltac:(discriminate) Hg Hr).
           cbv zeta. f_equal. f_equal. f_equal. f_equal.
           rewrite <- app_assoc. reflexivity.
        -- destruct (generate_repo_not_a_path H since w a Ha _ evs U (d :: ds)
                       out eq_refl ltac:(discriminate) Hg Hr) as [msg Hm].
           exists (evs ++ [spawn_event (buildPromptFromDiffs (d :: ds))]).
           eexists. left. exists (Exit 1). split; [now right|].
           rewrite Hm. f_equal. f_equal. f_equal.
           rewrite <- app_assoc. reflexivity.
      * exists (evs ++ [spawn_event (buildPromptFromDiffs (d :: ds))]).
        eexists. left. exists (Exit 1). split; [now right|].
        rewrite (generate_backend_failure H since w a Ha _ evs U (d :: ds) code
                   out eq_refl ltac:(discriminate) Hg Hc).
        f_equal. f_equal. f_equal. rewrite <- app_assoc. reflexivity.
  - exists evs. eexists. left. exists (Exit 1). split; [now right|].
    exact (generate_extract_error H since w a Ha _ evs U err eq_refl).
  - now destruct (getCommitDiffs_no_exit _ _ _ _ Ho).
Qed.

(** X13. When the back end is ended by a signal, so that its close event
    carries no exit code, the run prints "gemini exited code null" and ends
    by [process.exit(1)]; what the back end had printed is dropped and
    nothing is written. *)
Theorem backend_ended_by_signal_fails_the_run
    (since : string) (w : world) (a : active) (diffs : list string)
    (out : string) :
  fst (getActiveRepoPath H w) = Ret a ->
  fst (getCommitDiffs H (prop_to_string (a_repo a)) since w) = Ret diffs ->
  diffs <> [] ->
  gemini H (buildPromptFromDiffs diffs) = (None, out) ->
  let r := generate H since w in
  fst r = Exit 1
  /\ files (snd r) = files w
  /\ exists evs,
       Forall (fun e => is_ExecCmd e = true) evs
       /\ trace (snd r)
          = trace w ++
              banner a :: evs ++
                [spawn_event (buildPromptFromDiffs diffs);
                 StdoutWrite spinner_clear;
                 ConsoleError [AStr "gemini exited code null"]].
Proof.
  intros Ha Hd Hne Hg r. subst r.
  destruct (getCommitDiffs_events H (prop_to_string (a_repo a)) since w)
    as (evs & U & Fe).
  rewrite (generate_backend_failure H since w a Ha _ evs U diffs None out Hd Hne
             Hg ltac:(discriminate)).
  cbn [fst snd]. repeat split. exists evs. split; [exact Fe | reflexivity].
Qed.

(** X15. A run changes at most one file and removes none: afterwards the
    files are what they were, or what they were with one file written; and
    the events of the run come after those that were there. *)
Theorem run_changes_at_most_one_file (since : string) (w : world) :
  let r := generate H since w in
  (files (snd r) = files w
   \/ exists p c, files (snd r) = <[p := c]> (files w) /\ fst r = Ret tt)
  /\ (forall p, is_Some (files w !! p) -> is_Some (files (snd r) !! p))
  /\ exists evs, trace (snd r) = trace w ++ evs.
Proof.
  cbv zeta.
  assert (Hmain :
            (exists o evs, generate H since w = (o, add_events w evs))
            \/ exists p c evs,
                generate H since w
                = (Ret tt, {| files := <[p := c]> (files w);
                              trace := trace w ++ evs |})).
  { destruct (fst (getActiveRepoPath H w)) as [a|err|c] eqn:Ha.
    - destruct (generate_cases since w a Ha)
        as (before & after & [(o & _ & E) | (p & c & E)]).
      + left. eauto.
      + right. eauto.
    - left. exists (Throw err), [].
      rewrite (generate_config_error H since w err Ha).
      now rewrite add_events_nil.
    - now destruct (proj2 (getActiveRepoPath_world H w) c). }
  destruct Hmain as [(o & evs & E) | (p & c & evs & E)]; rewrite E;
    cbn [fst snd files trace add_events].
  - split; [now left|]. split; [tauto | eauto].
  - split; [right; eauto|]. split; [|eauto].
    intros q Hq. destruct (decide (p = q)) as [->|Hne].
    + rewrite lookup_insert_eq. eauto.
    + now rewrite lookup_insert_ne.
Qed.


Lemma setActiveProject_no_exit (name : option string) (w : world) (c : Z) :
  fst (setActiveProject H name w) <> Exit c.
Proof.
  unfold setActiveProject, mbind, M_bind.
  pose proof (loadConfig_no_exit H w) as Hx.
  destruct (loadConfig H w) as [[cfg|e|c'] w1]; cbn [fst] in *.
  - destruct (negb _); discriminate.
  - discriminate.
  - now destruct (Hx c').
Qed.



End WithHost.

Lemma backend_ended_by_signal_fails_the_run_witness :
  fst (generate host_killed since world0) = Exit 1
  /\ files (snd (generate host_killed since world0)) = files world0.
Proof.
  destruct (backend_ended_by_signal_fails_the_run host_killed since world0
              active_p (diffs 3) "partial") as (A & B & _).
  - vm_compute. reflexivity.
  - vm_compute. reflexivity.
  - discriminate.
  - reflexivity.
  - split; assumption.
Defined.



End PipelineExtras.

(** ** Trimmed output, the output folder, and the commands that only read *)

Module MoreExtras.
Import PromptFacts PathFacts StringExtras RunFacts GenerateFacts Sample.

Lemma strip_prefix_shorter (p s r : string) :
  p <> "" -> JSString.strip_prefix p s = Some r ->
  (String.length r < String.length s)%nat.
Proof.
  intros Hp E. destruct p as [|a p]; [congruence|].
  destruct s as [|b s]; [discriminate|]. cbn [JSString.strip_prefix] in E.
  destruct (Ascii.eqb a b); [|discriminate].
  apply strip_prefix_length in E. cbn [String.length]. lia.
Qed.

Lemma strip_one_shorter (ws : list string) (s r : string) :
  Forall (fun x => x <> "") ws ->
  JSString.strip_one ws s = Some r ->
  (String.length r < String.length s)%nat.
Proof.
  induction 1 as [|x ws Hx _ IH]; [discriminate|]. cbn [JSString.strip_one].
  destruct (JSString.strip_prefix x s) as [r'|] eqn:E.
  - intros [= <-]. now apply strip_prefix_shorter in E.
  - exact IH.
Qed.

Lemma white_space_nonempty :
  Forall (fun x => x <> "") JSString.white_space
  /\ Forall (fun x => x <> "") JSString.rev_ws.
Proof. split; repeat (constructor; [discriminate|]); constructor. Qed.

(** The fuel of the two loops is enough: what they return has no white
    space left at its start. *)
Lemma trimStart_fuel_done (n : nat) :
  forall s,
    (String.length s <= n)%nat ->
    JSString.strip_one JSString.white_space (JSString.trimStart_fuel n s) = None.
Proof.
  induction n as [|n IH]; intros s Hs.
  - destruct s; [reflexivity | cbn in Hs; lia].
  - cbn [JSString.trimStart_fuel].
    destruct (JSString.strip_one JSString.white_space s) as [r|] eqn:E;
      [|exact E].
    apply IH. apply (strip_one_shorter _ _ _ (proj1 white_space_nonempty)) in E.
    lia.
Qed.

Lemma trimEnd_fuel_done (n : nat) :
  forall s,
    (String.length s <= n)%nat ->
    JSString.strip_one JSString.rev_ws (JSString.trimEnd_fuel n s) = None.
Proof.
  induction n as [|n IH]; intros s Hs.
  - destruct s; [reflexivity | cbn in Hs; lia].
  - cbn [JSString.trimEnd_fuel].
    destruct (JSString.strip_one JSString.rev_ws s) as [r|] eqn:E; [|exact E].
    apply IH. apply (strip_one_shorter _ _ _ (proj2 white_space_nonempty)) in E.
    lia.
Qed.

Lemma strip_prefix_suffix (p s r : string) :
  JSString.strip_prefix p s = Some r -> s = p +:+ r.
Proof.
  revert s. induction p as [|a p IH]; intros s E.
  - cbn in E. now injection E as ->.
  - destruct s as [|b s]; [discriminate|]. cbn [JSString.strip_prefix] in E.
    destruct (Ascii.eqb_spec a b) as [->|]; [|discriminate].
    apply IH in E. now rewrite E.
Qed.

Lemma strip_one_suffix (ws : list string) (s r : string) :
  JSString.strip_one ws s = Some r -> exists x, s = x +:+ r.
Proof.
  induction ws as [|w ws IH]; [discriminate|]. cbn [JSString.strip_one].
  destruct (JSString.strip_prefix w s) as [r'|] eqn:E.
  - intros [= <-]. apply strip_prefix_suffix in E. eauto.
  - exact IH.
Qed.

Lemma trimEnd_fuel_suffix (n : nat) :
  forall s, exists x, s = x +:+ JSString.trimEnd_fuel n s.
Proof.
  induction n as [|n IH]; intros s; [now exists ""|].
  cbn [JSString.trimEnd_fuel].
  destruct (JSString.strip_one JSString.rev_ws s) as [r|] eqn:E;
    [|now exists ""].
  apply strip_one_suffix in E as [x ->]. destruct (IH r) as [y Hy].
  exists (x +:+ y). rewrite sapp_assoc. now rewrite <- Hy.
Qed.

Lemma strip_prefix_app (p a b r : string) :
  JSString.strip_prefix p a = Some r ->
  JSString.strip_prefix p (a +:+ b) = Some (r +:+ b).
Proof.
  revert a. induction p as [|x p IH]; intros a E.
  - cbn in E. now injection E as ->.
  - destruct a as [|y a]; [discriminate|].
    change (String y a +:+ b) with (String y (a +:+ b)).
    cbn [JSString.strip_prefix] in *.
    destruct (Ascii.eqb x y); [now apply IH | discriminate].
Qed.

Lemma strip_one_prefix_none (ws : list string) (a b : string) :
  JSString.strip_one ws (a +:+ b) = None -> JSString.strip_one ws a = None.
Proof.
  induction ws as [|w ws IH]; [reflexivity|]. cbn [JSString.strip_one].
  destruct (JSString.strip_prefix w a) as [r|] eqn:E.
  - now rewrite (strip_prefix_app w a b r E).
  - destruct (JSString.strip_prefix w (a +:+ b)); [discriminate | exact IH].
Qed.

(** A trimmed string has no white space at either end. *)
Lemma trim_done (s : string) :
  JSString.strip_one JSString.white_space (JSString.trim s) = None
  /\ JSString.strip_one JSString.rev_ws (String.rev (JSString.trim s)) = None.
Proof.
  unfold JSString.trim, JSString.trimEnd.
  set (t := JSString.trimStart s).
  assert (Ht : JSString.strip_one JSString.white_space t = None)
    by (apply trimStart_fuel_done; lia).
  set (u := JSString.trimEnd_fuel (String.length t) (String.rev t)).
  assert (Hu : JSString.strip_one JSString.rev_ws u = None)
    by (apply trimEnd_fuel_done; rewrite length_rev; lia).
  split; [|now rewrite rev_rev].
  destruct (trimEnd_fuel_suffix (String.length t) (String.rev t)) as [x Hx].
  fold u in Hx. apply (f_equal String.rev) in Hx.
  rewrite rev_rev, rev_sapp in Hx. rewrite Hx in Ht.
  now apply strip_one_prefix_none in Ht.
Qed.

Section WithHost.
Variable H : host.

(** X19. A diff that was fetched has no white space at its start or at its
    end: the loops that trim it run until none is left. *)
Theorem fetched_diff_is_trimmed (repo h : string) (w : world) (d : string) :
  fst (getCommitDiff H repo h w) = Ret d ->
  JSString.strip_one JSString.white_space d = None
  /\ JSString.strip_one JSString.rev_ws (String.rev d) = None
  /\ JSString.trim d = d.
Proof.
  rewrite (uniform_fst _ _ _ w (uniform_getCommitDiff H repo h)).
  destruct (exec_callback_args H (git_show_cmd repo h) diff_maxBuffer)
    as [[err|] stdout]; cbn [diff_callback to_outcome]; [discriminate|].
  intros [= <-]. destruct (trim_done stdout) as [Hs He].
  split; [exact Hs|]. split; [exact He|].
  set (d := JSString.trim stdout) in *.
  assert (Hst : JSString.trimStart d = d).
  { unfold JSString.trimStart. destruct (String.length d); [reflexivity|].
    cbn [JSString.trimStart_fuel]. now rewrite Hs. }
  unfold JSString.trim. rewrite Hst. unfold JSString.trimEnd.
  destruct (String.length d); cbn [JSString.trimEnd_fuel];
    [|rewrite He]; apply rev_rev.
Qed.

(** X12. A successful run writes the report in the folder the registry
    names, and in the folder worklogs when the registry names none or
    names the empty string. *)
Theorem report_goes_to_the_configured_folder
    (since : string) (w : world) (text : string) (cfg : config)
    (name repo : string) (diffs : list string) (out : string) :
  files w !! CONFIG H = Some text ->
  JSON_parse H text = Ok cfg ->
  activeProject cfg = Some name -> name <> "" ->
  projects cfg !! name = Some repo -> repo <> "" ->
  fst (getCommitDiffs H repo since w) = Ret diffs -> diffs <> [] ->
  gemini H (buildPromptFromDiffs diffs) = (Some 0, out) ->
  let outDir := Path.join [repo; folder_of cfg] in
  let outPath := Path.join [outDir; out_date H +:+ ".md"] in
  let r := generate H since w in
  fst r = Ret tt
  /\ Mkdir outDir ∈ trace (snd r)
  /\ files (snd r) !! outPath = Some (report_file (out_date H) out)
  /\ (worklogFolderName cfg = None \/ worklogFolderName cfg = Some "" ->
      folder_of cfg = "worklogs")
  /\ (forall f, worklogFolderName cfg = Some f -> f <> "" -> folder_of cfg = f).
Proof.
  intros Hf Hj Hact Hname Hrepo Hne Hd Hdne Hg outDir outPath r.
  set (a := {| a_name := name; a_repo := PString repo;
               a_worklogFolderName := folder_of cfg |}).
  assert (Ha : fst (getActiveRepoPath H w) = Ret a).
  { unfold getActiveRepoPath, mbind, M_bind, loadConfig.
    rewrite Hf, Hj. cbn [to_outcome]. rewrite Hact.
    destruct (String.eqb_spec name ""); [contradiction|].
    unfold get_prop. rewrite Hrepo. cbn [truthy].
    destruct (String.eqb_spec repo ""); [contradiction|]. reflexivity. }
  destruct (getCommitDiffs_events H (prop_to_string (a_repo a)) since w)
    as (evs & U & _).
  cbn [a a_repo prop_to_string] in U. rewrite Hd in U.
  pose proof (generate_success H since w a Ha _ evs U diffs out repo eq_refl
                Hdne Hg eq_refl) as E.
  cbv zeta in E. cbn [a a_worklogFolderName] in E.
  fold outDir outPath in E. subst r. rewrite E. cbn [fst snd files trace].
  split; [reflexivity|]. split.
  { apply elem_of_app. right. apply elem_of_cons. right.
    apply elem_of_app. right. do 2 (apply elem_of_cons; right).
    apply elem_of_cons. now left. }
  split; [apply lookup_insert_eq|]. unfold folder_of. split.
  - intros [-> | ->]; reflexivity.
  - intros f -> Hfne. destruct (String.eqb_spec f ""); [contradiction|].
    reflexivity.
Qed.

(** The events of [set-active], in each of its outcomes. *)
Lemma setActiveProject_world (name : option string) (w : world) :
  snd (setActiveProject H name w) = w
  \/ exists c,
      snd (setActiveProject H name w)
      = {| files := <[CONFIG H := c]> (files w);
           trace := trace w ++
             [Mkdir (Path.dirname (CONFIG H)); WriteFile (CONFIG H) c;
              ConsoleLog [AStr "activeProject set to"; AOpt name]] |}.
Proof.
  unfold setActiveProject, mbind, M_bind.
  pose proof (loadConfig_world H w) as Hw.
  destruct (loadConfig H w) as [[cfg|e|c] w1]; cbn [snd] in *; subst w1;
    [|now left..].
  destruct (negb _); [now left|]. right. eexists.
  unfold saveConfig, mkdirSync, writeFileSync, mbind, M_bind, emit, add_events.
  cbn [snd files trace]. now rewrite <- !app_assoc.
Qed.

(** X18. Only the command [generate] starts child processes and writes
    reports: any other command line adds no [git] or back end call, leaves
    every file but the registry as it was, and leaves the registry too
    unless the command is [set-active]. *)
Theorem only_generate_starts_processes (argv : list string) (w : world) :
  argv !! 0%nat <> Some "generate" ->
  let w' := snd (main H argv w) in
  (exists evs,
      trace w' = trace w ++ evs
      /\ Forall (fun e => is_process e = false) evs)
  /\ (forall p, p <> CONFIG H -> files w' !! p = files w !! p)
  /\ (argv !! 0%nat <> Some "set-active" -> files w' = files w).
Proof.
  intros Hg. cbv zeta. unfold main.
  destruct (decide (argv !! 0%nat = Some "set-active")) as [Hs|Hs].
  { unfold try_catch.
    destruct (setActiveProject_world (argv !! 1%nat) w) as [E | [c E]];
      destruct (setActiveProject H (argv !! 1%nat) w) as [[[]|e|x] w1];
      cbn [snd] in E; subst w1; cbn [snd emit add_events files trace];
      (split; [|split; [|congruence]]);
      try (intros p Hp; now rewrite ?lookup_insert_ne by congruence);
      try reflexivity.
    all: try (exists []; split; [now rewrite app_nil_r | constructor]).
    all: eexists; split;
      [first [reflexivity | rewrite <- app_assoc; reflexivity]
      | repeat constructor]. }
  destruct (decide (argv !! 0%nat = Some "generate")) as [|_]; [contradiction|].
  destruct (decide (argv !! 0%nat = Some "list-projects")) as [_|_].
  { unfold try_catch, mbind, M_bind.
    pose proof (loadConfig_world H w) as Hw.
    destruct (loadConfig H w) as [[cfg|e|c] w1]; cbn [snd] in Hw; subst w1;
      cbn [snd emit add_events files trace].
    - split; [|split; reflexivity].
      eexists. split; [rewrite <- app_assoc; reflexivity | repeat constructor].
    - split; [|split; reflexivity].
      eexists. split; [reflexivity | repeat constructor].
    - split; [|split; reflexivity].
      exists []. split; [now rewrite app_nil_r | constructor]. }
  cbn [snd emit add_events files trace]. split; [|split; reflexivity].
  eexists. split; [reflexivity | repeat constructor].
Qed.

End WithHost.

Lemma fetched_diff_is_trimmed_witness :
  JSString.trim (JSString.trim (small_diff (git_show_cmd "/repo" (hash 1))))
  = JSString.trim (small_diff (git_show_cmd "/repo" (hash 1))).
Proof.
  refine (proj2 (proj2 (fetched_diff_is_trimmed host3 "/repo" (hash 1) world0
                          _ _))).
  vm_compute. reflexivity.
Defined.

Lemma report_goes_to_the_configured_folder_witness :
  files (snd (generate host3 since world0))
    !! Path.join [Path.join ["/repo"; folder_of registry];
                  out_date host3 +:+ ".md"]
  = Some (report_file (out_date host3) ("  the report " +:+ nl)).
Proof.
  destruct (report_goes_to_the_configured_folder host3 since world0
              "registry" registry "p" "/repo" (diffs 3)
              ("  the report " +:+ nl)) as (_ & _ & F & _).
  - vm_compute. reflexivity.
  - reflexivity.
  - reflexivity.
  - discriminate.
  - vm_compute. reflexivity.
  - discriminate.
  - vm_compute. reflexivity.
  - discriminate.
  - reflexivity.
  - exact F.
Defined.

Lemma only_generate_starts_processes_witness :
  files (snd (main host3 ["list-projects"] world0)) = files world0.
Proof.
  destruct (only_generate_starts_processes host3 ["list-projects"] world0)
    as (_ & _ & F).
  - discriminate.
  - apply F. discriminate.
Defined.

End MoreExtras.
